(** * FileNet CPE log analyzer: the ingestion and classification pipeline

    A shallow embedding of [filenet_cpe_log_analyzer.py]: message
    normalisation ([normalize_message]), relative time expressions
    ([parse_relative_delta]), line parsing and ingestion ([LOG_LINE_RE],
    [parse_logs]) and the aggregation done in [main].

    Python strings are sequences of Unicode code points; they are modelled
    as [list N].  The regular expressions of the program are kept as data
    (an abstract syntax tree mirroring the pattern text) and run by a
    backtracking matcher with Python's priorities (leftmost, greedy). *)

From Stdlib Require Import Ascii String.
From Stdlib Require Import List NArith ZArith Lia Bool Arith.
From Stdlib Require Import Permutation Sorted.
Import ListNotations.

Set Implicit Arguments.

(* ===================================================================== *)
(** * Part I: the model                                                   *)
(* ===================================================================== *)

(** ** Python strings and the Unicode predicates the program relies on *)

Module Unicode.

Definition char := N.
Definition str := list char.
Bind Scope N_scope with char.
#[local] Open Scope N_scope.

Definition char_eqb (a b : char) : bool := N.eqb a b.

Fixpoint str_eqb (a b : str) : bool :=
  match a, b with
  | [], [] => true
  | x :: a', y :: b' => char_eqb x y && str_eqb a' b'
  | _, _ => false
  end.

(** Decoding of a source literal (UTF-8 bytes) into code points, so that
    the literals below read as they do in the Python source. *)
Fixpoint utf8_decode (bs : list N) : str :=
  match bs with
  | [] => []
  | b :: rest =>
      if (b <? 128)%N then b :: utf8_decode rest
      else if (b <? 224)%N then
        match rest with
        | b1 :: rest' => ((b - 192) * 64 + (b1 - 128))%N :: utf8_decode rest'
        | _ => []
        end
      else if (b <? 240)%N then
        match rest with
        | b1 :: b2 :: rest' =>
            ((b - 224) * 4096 + (b1 - 128) * 64 + (b2 - 128))%N
              :: utf8_decode rest'
        | _ => []
        end
      else
        match rest with
        | b1 :: b2 :: b3 :: rest' =>
            ((b - 240) * 262144 + (b1 - 128) * 4096
             + (b2 - 128) * 64 + (b3 - 128))%N :: utf8_decode rest'
        | _ => []
        end
  end.

Definition py (s : string) : str :=
  utf8_decode (map N_of_ascii (list_ascii_of_string s)).
Arguments py s%_string.

(** What the interpreter's Unicode database says about the code points
    outside ASCII.  The program never names them, so they are a parameter
    of the model: every theorem holds whatever the database says. *)
Record table := Table {
  t_isspace : char -> bool;        (* str.isspace, regex \s *)
  t_isalnum : char -> bool;        (* str.isalnum, the letters of regex \w *)
  t_decimal : char -> option N;    (* category Nd with its digit value *)
  t_lower : str -> str;            (* str.lower on a non-ASCII string *)
  t_upper : str -> str             (* str.upper on a non-ASCII string *)
}.

(** A database that knows no character outside ASCII. *)
Definition ascii_only : table :=
  Table (fun _ => false) (fun _ => false) (fun _ => None)
        (fun s => s) (fun s => s).

Definition in_range (lo hi c : char) : bool := ((lo <=? c) && (c <=? hi))%N.

Definition is_ascii (c : char) : bool := (c <? 128)%N.

(** The two non-ASCII code points of the program's own literals:
    U+2013 EN DASH and U+2026 HORIZONTAL ELLIPSIS, both punctuation. *)
Definition EN_DASH : char := 8211%N.
Definition ELLIPSIS : char := 8230%N.
Definition literal_punct (c : char) : bool :=
  char_eqb c EN_DASH || char_eqb c ELLIPSIS.

Definition ascii_digit (c : char) : bool := in_range 48 57 c.
Definition ascii_upper (c : char) : bool := in_range 65 90 c.
Definition ascii_lower (c : char) : bool := in_range 97 122 c.

(** ASCII white space for Python: TAB LF VT FF CR, FS GS RS US, SPACE. *)
Definition ascii_space (c : char) : bool :=
  in_range 9 13 c || in_range 28 32 c.

Section WithTable.
Variable T : table.

Definition isspace (c : char) : bool :=
  if is_ascii c then ascii_space c
  else if literal_punct c then false else t_isspace T c.

(** Regex [\d]: a decimal digit, with its value for [int()]. *)
Definition decimal (c : char) : option N :=
  if is_ascii c then (if ascii_digit c then Some (c - 48)%N else None)
  else if literal_punct c then None else t_decimal T c.

Definition isdecimal (c : char) : bool :=
  match decimal c with Some _ => true | None => false end.

Definition isalnum (c : char) : bool :=
  if is_ascii c then ascii_digit c || ascii_upper c || ascii_lower c
  else if literal_punct c then false
  else t_isalnum T c || isdecimal c.

(** Regex [\w]: alphanumeric or underscore. *)
Definition isword (c : char) : bool := isalnum c || char_eqb c 95.

Definition to_lower_ascii (c : char) : char :=
  if ascii_upper c then (c + 32)%N else c.
Definition to_upper_ascii (c : char) : char :=
  if ascii_lower c then (c - 32)%N else c.

Definition lower (s : str) : str :=
  if forallb is_ascii s then map to_lower_ascii s else t_lower T s.
Definition upper (s : str) : str :=
  if forallb is_ascii s then map to_upper_ascii s else t_upper T s.

(** [str.strip()] *)
Fixpoint lstrip (s : str) : str :=
  match s with
  | c :: s' => if isspace c then lstrip s' else s
  | [] => []
  end.
Definition rstrip (s : str) : str := rev (lstrip (rev s)).
Definition strip (s : str) : str := rstrip (lstrip s).

(** The number that a run of decimal digits denotes.  [int(s)] returns it
    for a numeral within the interpreter's limit on the length of a
    numeral; that limit is part of [RelTime.int], where the program
    converts digits of any length. *)
Definition int_of_digits (s : str) : N :=
  fold_left (fun acc c =>
               (10 * acc + match decimal c with Some d => d | None => 0 end)%N)
            s 0%N.

End WithTable.

(** [needle in hay] *)
Fixpoint starts_with (needle hay : str) : bool :=
  match needle, hay with
  | [], _ => true
  | x :: n', y :: h' => char_eqb x y && starts_with n' h'
  | _ :: _, [] => false
  end.

Fixpoint contains (needle hay : str) : bool :=
  starts_with needle hay ||
  match hay with
  | [] => false
  | _ :: h' => contains needle h'
  end.

End Unicode.

(** ** Regular expressions, as Python's [re] runs them *)

Module Regex.
Import Unicode.
#[local] Open Scope nat_scope.

Inductive re : Type :=
| Eps : re
| Cls : (char -> bool) -> re        (* one character of a class *)
| Cat : re -> re -> re
| Alt : re -> re -> re              (* [r1|r2], the left one preferred *)
| Star : re -> re                   (* greedy [r*] *)
| Bol : re                          (* [^] *)
| Eol : re                          (* [$] *)
| WordB : re                        (* [\b] *)
| Group : nat -> re -> re.          (* a capturing group *)

Fixpoint Rep (n : nat) (r : re) : re :=      (* [r{n}] *)
  match n with
  | O => Eps
  | S n' => Cat r (Rep n' r)
  end.
Definition AtLeast (n : nat) (r : re) : re := Cat (Rep n r) (Star r).
Fixpoint UpTo (n : nat) (r : re) : re :=     (* [r{0,n}], greedy *)
  match n with
  | O => Eps
  | S n' => Alt (Cat r (UpTo n' r)) Eps
  end.
Definition Plus (r : re) : re := AtLeast 1 r.
Definition Lit (c : char) : re := Cls (char_eqb c).

(** A position in the subject: the text already passed (nearest character
    first) and the text ahead. *)
Record cursor := Cursor { behind : str; ahead : str }.

Definition start (s : str) : cursor := Cursor [] s.

Definition groups := list (nat * str).

Fixpoint group (i : nat) (g : groups) : str :=
  match g with
  | [] => []
  | (j, s) :: g' => if Nat.eqb i j then s else group i g'
  end.

(** The text between two positions of one subject. *)
Definition consumed (c c' : cursor) : str :=
  firstn (length (ahead c) - length (ahead c')) (ahead c).

Section WithTable.
Variable T : table.

Definition at_boundary (c : cursor) : bool :=
  xorb (match behind c with x :: _ => isword T x | [] => false end)
       (match ahead c with x :: _ => isword T x | [] => false end).

Section Run.
Variable A : Type.

(** The backtracking matcher, in continuation-passing style: [k] is tried
    on every way of matching [r] at [c], in Python's order of preference,
    and the first success is the answer.  An iteration of [Star] that
    consumes nothing is not taken. *)
Fixpoint run (r : re) (c : cursor) (g : groups)
         (k : cursor -> groups -> option A) {struct r} : option A :=
  match r with
  | Eps => k c g
  | Cls p =>
      match ahead c with
      | x :: rest => if p x then k (Cursor (x :: behind c) rest) g else None
      | [] => None
      end
  | Cat r1 r2 => run r1 c g (fun c' g' => run r2 c' g' k)
  | Alt r1 r2 =>
      match run r1 c g k with
      | Some res => Some res
      | None => run r2 c g k
      end
  | Star r1 =>
      (fix loop (n : nat) (c : cursor) (g : groups) {struct n} : option A :=
         match n with
         | O => k c g
         | S n' =>
             match run r1 c g
                       (fun c' g' =>
                          if length (ahead c') <? length (ahead c)
                          then loop n' c' g' else None) with
             | Some res => Some res
             | None => k c g
             end
         end) (length (ahead c)) c g
  | Bol => match behind c with [] => k c g | _ :: _ => None end
  | Eol =>
      match ahead c with
      | [] => k c g
      | [x] => if char_eqb x 10%N then k c g else None
      | _ => None
      end
  | WordB => if at_boundary c then k c g else None
  | Group i r1 => run r1 c g (fun c' g' => k c' ((i, consumed c c') :: g'))
  end.

End Run.

(** One match attempt at a position: the end position and the groups, for
    a match that consumes at least one character (none of the program's
    patterns can match the empty string). *)
Definition match_at (r : re) (c : cursor) : option (cursor * groups) :=
  run r c []
      (fun c' g =>
         if length (ahead c') <? length (ahead c) then Some (c', g) else None).

(** [pattern.match(s)] *)
Definition re_match (r : re) (s : str) : option groups :=
  option_map snd (match_at r (start s)).

Definition step (c : cursor) : cursor :=
  match ahead c with
  | x :: rest => Cursor (x :: behind c) rest
  | [] => c
  end.

(** [re.sub(pattern, repl, s)] with a constant replacement. *)
Fixpoint sub_from (r : re) (repl : str) (fuel : nat) (c : cursor) : str :=
  match fuel with
  | O => ahead c
  | S fuel' =>
      match match_at r c with
      | Some (c', _) => repl ++ sub_from r repl fuel' c'
      | None =>
          match ahead c with
          | [] => []
          | x :: _ => x :: sub_from r repl fuel' (step c)
          end
      end
  end.

Definition sub (r : re) (repl : str) (s : str) : str :=
  sub_from r repl (S (length s)) (start s).

(** [pattern.finditer(s)]: the groups of the successive matches. *)
Fixpoint finditer_from (r : re) (fuel : nat) (c : cursor) : list groups :=
  match fuel with
  | O => []
  | S fuel' =>
      match match_at r c with
      | Some (c', g) => g :: finditer_from r fuel' c'
      | None =>
          match ahead c with
          | [] => []
          | _ :: _ => finditer_from r fuel' (step c)
          end
      end
  end.

Definition finditer (r : re) (s : str) : list groups :=
  finditer_from r (S (length s)) (start s).

(** The character classes of the program's patterns. *)
Definition cls_d : re := Cls (isdecimal T).                  (* \d *)
Definition cls_s : re := Cls (isspace T).                    (* \s *)
Definition cls_S : re := Cls (fun c => negb (isspace T c)).  (* \S *)
Definition cls_w : re := Cls (isword T).                     (* \w *)
Definition cls_dot : re := Cls (fun c => negb (char_eqb c 10%N)).
Definition cls_hex : re :=                                   (* [0-9a-fA-F] *)
  Cls (fun c => in_range 48 57 c || in_range 97 102 c || in_range 65 70 c).
Definition cls_AZ09 : re :=                                  (* [A-Z0-9] *)
  Cls (fun c => in_range 65 90 c || in_range 48 57 c).

End WithTable.

Definition cat (rs : list re) : re := fold_right Cat Eps rs.
Definition alt (r : re) (rs : list re) : re := fold_left Alt rs r.
Definition one_of (cs : str) : re := Cls (fun c => existsb (char_eqb c) cs).
Definition range (lo hi : char) : re := Cls (in_range lo hi).

(** *** What a match is

    The relation below says when a pattern matches between two positions
    of one subject; [run] is proved sound and complete for it in Part II. *)

(** The text of the subject that a cursor stands in. *)
Definition subject (c : cursor) : str := rev (behind c) ++ ahead c.

Section Meaning.
Variable T : table.

Inductive Matches : re -> cursor -> cursor -> Prop :=
| M_Eps c : Matches Eps c c
| M_Cls (p : char -> bool) x b rest :
    p x = true -> Matches (Cls p) (Cursor b (x :: rest)) (Cursor (x :: b) rest)
| M_Cat r1 r2 c c1 c2 :
    Matches r1 c c1 -> Matches r2 c1 c2 -> Matches (Cat r1 r2) c c2
| M_AltL r1 r2 c c' : Matches r1 c c' -> Matches (Alt r1 r2) c c'
| M_AltR r1 r2 c c' : Matches r2 c c' -> Matches (Alt r1 r2) c c'
| M_Star0 r c : Matches (Star r) c c
| M_StarS r c c1 c2 :
    Matches r c c1 -> length (ahead c1) < length (ahead c) ->
    Matches (Star r) c1 c2 -> Matches (Star r) c c2
| M_Bol c : behind c = [] -> Matches Bol c c
| M_Eol c : ahead c = [] \/ ahead c = [10%N] -> Matches Eol c c
| M_WordB c : at_boundary T c = true -> Matches WordB c c
| M_Group i r c c' : Matches r c c' -> Matches (Group i r) c c'.

End Meaning.

(** The loop that [run] makes for [Star], on its own. *)
Section StarLoop.
Variable A : Type.
Variable body : cursor -> groups -> (cursor -> groups -> option A) -> option A.
Variable k : cursor -> groups -> option A.

Fixpoint star_loop (n : nat) (c : cursor) (g : groups) : option A :=
  match n with
  | O => k c g
  | S n' =>
      match body c g
                 (fun c' g' =>
                    if length (ahead c') <? length (ahead c)
                    then star_loop n' c' g' else None) with
      | Some res => Some res
      | None => k c g
      end
  end.

End StarLoop.

(** [c1] is a position of the subject of [c], at or after [c]. *)
Definition reaches (c c1 : cursor) : Prop :=
  exists skipped, ahead c = skipped ++ ahead c1
                  /\ behind c1 = rev skipped ++ behind c.

End Regex.

(** ** MessageNormalizer: [normalize_message] *)

Module Normalizer.
Import Unicode Regex.
#[local] Open Scope nat_scope.

Definition dash : re := Lit 45%N.

Section WithTable.
Variable T : table.

(** [\b[0-9a-fA-F]{8}-[0-9a-fA-F]{4}-[0-9a-fA-F]{4}-[0-9a-fA-F]{4}-[0-9a-fA-F]{12}\b] *)
Definition GUID_RE : re :=
  cat [WordB; Rep 8 cls_hex; dash; Rep 4 cls_hex; dash; Rep 4 cls_hex; dash;
       Rep 4 cls_hex; dash; Rep 12 cls_hex; WordB].

(** [\b[A-Z0-9]{8,}\b] *)
Definition ID_RE : re := cat [WordB; AtLeast 8 cls_AZ09; WordB].

(** [\b\d{6,}\b] *)
Definition NUM_RE : re := cat [WordB; AtLeast 6 (cls_d T); WordB].

(** [\s+] *)
Definition WS_RE : re := Plus (cls_s T).

(** Lines 57-61: the three placeholder substitutions, then white space
    collapsed and the ends stripped. *)
Definition substituted (msg : str) : str :=
  let m := msg in
  let m := sub T GUID_RE (py "{GUID}") m in
  let m := sub T ID_RE (py "{ID}") m in
  let m := sub T NUM_RE (py "{NUM}") m in
  strip T (sub T WS_RE (py " ") m).

Definition FAMILY_WSI : str :=
  py "WSIAuthenticatorImpl login exception (authentication failures)".
Definition FAMILY_COLLISION : str :=
  py "checkNameCollision / FNRCE0043E (E_NOT_UNIQUE) – Name already exists".
Definition FAMILY_GETCONTENT : str :=
  py "getContent failures (content retrieval)".
Definition FAMILY_UNEXPECTED : str :=
  py "FNRCE0066E (E_UNEXPECTED_EXCEPTION) – unexpected error".
Definition FAMILY_REAPER : str :=
  py "TTLStreamReaper scheduling issue".

(** Lines 63-72: the ordered rules on the substituted text; the first
    that applies gives the family. *)
Definition matched_rule (m : str) : option str :=
  if contains (py "[WSIAuthenticatorImpl] login exception") m
     || contains (py "WSIAuthenticatorImpl") m
  then Some FAMILY_WSI
  else if contains (py "MethodName: checkNameCollision") m
          || contains (py "E_NOT_UNIQUE") m
          || contains (py "FNRCE0043E") m
  then Some FAMILY_COLLISION
  else if contains (py "MethodName: getContent") m
  then Some FAMILY_GETCONTENT
  else if contains (py "FNRCE0066E") m
          || contains (py "E_UNEXPECTED_EXCEPTION") m
  then Some FAMILY_UNEXPECTED
  else if contains (py "TTLStreamReaper") m
  then Some FAMILY_REAPER
  else None.

(** Line 73: the fallback. *)
Definition truncated (m : str) : str :=
  if 140 <? length m then firstn 140 m ++ py "…" else m.

Definition classify (m : str) : str :=
  match matched_rule m with
  | Some label => label
  | None => truncated m
  end.

Definition normalize_message (msg : str) : str := classify (substituted msg).

End WithTable.

(** Two messages used below: one whose 140th character falls inside a
    word, and the repeated text of the specification's example. *)
Definition cut_inside_word : str :=
  repeat 97%N 130 ++ py " ABCDEFGHIjklmnop".
Definition repeated_text : str :=
  concat (repeat (py "Some long unmatched message") 6).

End Normalizer.

(** ** Exceptions, and the [datetime] values the program computes with *)

Module Py.

Inductive exn : Type :=
| ValueError | TypeError | OverflowError | SystemExit
| FileNotFoundError | OtherOSError.

Inductive result (A : Type) : Type :=
| Ok : A -> result A
| Raise : exn -> result A.
Arguments Ok {A} _.
Arguments Raise {A} _.

Definition bind {A B : Type} (x : result A) (f : A -> result B) : result B :=
  match x with
  | Ok a => f a
  | Raise e => Raise e
  end.

End Py.

Declare Scope py_scope.
Delimit Scope py_scope with py.
Notation "x <- e ;; k" := (Py.bind e (fun x => k))
  (at level 61, e at next level, right associativity) : py_scope.

Module PyTime.
Import Py.
#[local] Open Scope Z_scope.
#[local] Open Scope py_scope.

(** A [timedelta] is held as its total number of microseconds; the
    constructor and every operation check that the number of whole days
    stays within [-999999999, 999999999]. *)
Definition timedelta := Z.

Definition US_PER_SECOND : Z := 1000000.
Definition US_PER_DAY : Z := 86400 * US_PER_SECOND.
Definition MAX_DELTA_DAYS : Z := 999999999.

Definition td_days (d : timedelta) : Z := d / US_PER_DAY.

Definition td_check (us : Z) : result timedelta :=
  if (- MAX_DELTA_DAYS <=? td_days us) && (td_days us <=? MAX_DELTA_DAYS)
  then Ok us else Raise OverflowError.

(** [timedelta(weeks=w, days=d, hours=h, minutes=m, seconds=s)] *)
Definition timedelta_new (w d h m s : Z) : result timedelta :=
  td_check (((((w * 7 + d) * 24 + h) * 60 + m) * 60 + s) * US_PER_SECOND).

(** The first total, in microseconds, that is out of range. *)
Definition LIMIT_US : Z := (MAX_DELTA_DAYS + 1) * US_PER_DAY.

Definition td_zero : timedelta := 0.
Definition td_add (a b : timedelta) : result timedelta := td_check (a + b).

(** A naive [datetime], by its fields. *)
Record datetime := Datetime {
  year : Z; month : Z; day : Z;
  hour : Z; minute : Z; second : Z; microsecond : Z
}.

Definition is_leap (y : Z) : bool :=
  (y mod 4 =? 0) && (negb (y mod 100 =? 0) || (y mod 400 =? 0)).

Definition days_in_month (y m : Z) : Z :=
  if m =? 2 then (if is_leap y then 29 else 28)
  else if (m =? 4) || (m =? 6) || (m =? 9) || (m =? 11) then 30 else 31.

Definition days_before_month (y m : Z) : Z :=
  nth (Z.to_nat m) [0; 0; 31; 59; 90; 120; 151; 181; 212; 243; 273; 304; 334] 0
  + (if (2 <? m) && is_leap y then 1 else 0).

Definition days_before_year (y : Z) : Z :=
  let y := y - 1 in y * 365 + y / 4 - y / 100 + y / 400.

Definition ymd2ord (y m d : Z) : Z :=
  days_before_year y + days_before_month y m + d.

Definition MAXORDINAL : Z := 3652059.

Definition ord2ymd (n : Z) : Z * Z * Z :=
  let n := n - 1 in
  let n400 := n / 146097 in let n := n mod 146097 in
  let y := n400 * 400 + 1 in
  let n100 := n / 36524 in let n := n mod 36524 in
  let n4 := n / 1461 in let n := n mod 1461 in
  let n1 := n / 365 in let n := n mod 365 in
  let y := y + n100 * 100 + n4 * 4 + n1 in
  if (n1 =? 4) || (n100 =? 4) then (y - 1, 12, 31)
  else
    let leapyear := (n1 =? 3) && (negb (n4 =? 24) || (n100 =? 3)) in
    let m := Z.shiftr (n + 50) 5 in
    let preceding :=
      nth (Z.to_nat m) [0; 0; 31; 59; 90; 120; 151; 181; 212; 243; 273; 304; 334] 0
      + (if (2 <? m) && leapyear then 1 else 0) in
    if n <? preceding then
      let m := m - 1 in
      let dim := if m =? 2 then (if leapyear then 29 else 28)
                 else if (m =? 4) || (m =? 6) || (m =? 9) || (m =? 11)
                      then 30 else 31 in
      (y, m, n - (preceding - dim) + 1)
    else (y, m, n - preceding + 1).

(** The constructor's range checks. *)
Definition datetime_new (y mo d h mi s us : Z) : result datetime :=
  if (1 <=? y) && (y <=? 9999) && (1 <=? mo) && (mo <=? 12)
     && (1 <=? d) && (d <=? days_in_month y mo)
     && (0 <=? h) && (h <? 24) && (0 <=? mi) && (mi <? 60)
     && (0 <=? s) && (s <? 60) && (0 <=? us) && (us <? US_PER_SECOND)
  then Ok (Datetime y mo d h mi s us) else Raise ValueError.

(** Microseconds since the start of day 0 of the proleptic calendar. *)
Definition to_us (t : datetime) : Z :=
  ymd2ord (year t) (month t) (day t) * US_PER_DAY
  + ((hour t * 60 + minute t) * 60 + second t) * US_PER_SECOND
  + microsecond t.

(** [datetime + timedelta]: the result must fall in years 1..9999. *)
Definition datetime_add (t : datetime) (d : timedelta) : result datetime :=
  let us := to_us t + d in
  let days := us / US_PER_DAY in
  let rest := us mod US_PER_DAY in
  if (0 <? days) && (days <=? MAXORDINAL) then
    let '(y, mo, dd) := ord2ymd days in
    let secs := rest / US_PER_SECOND in
    Ok (Datetime y mo dd (secs / 3600) (secs / 60 mod 60) (secs mod 60)
                 (rest mod US_PER_SECOND))
  else Raise OverflowError.

Definition datetime_sub (t : datetime) (d : timedelta) : result datetime :=
  datetime_add t (- d).

(** Comparison of naive datetimes: field by field. *)
Definition fields (t : datetime) : list Z :=
  [year t; month t; day t; hour t; minute t; second t; microsecond t].

Fixpoint lex_ltb (a b : list Z) : bool :=
  match a, b with
  | x :: a', y :: b' => (x <? y) || ((x =? y) && lex_ltb a' b')
  | [], _ :: _ => true
  | _, [] => false
  end.

Definition datetime_ltb (a b : datetime) : bool := lex_ltb (fields a) (fields b).
Definition datetime_gtb (a b : datetime) : bool := datetime_ltb b a.

(** *** Words for the statements about instants *)

(** A value that the constructor accepts, as [datetime.now()] returns. *)
Definition valid (t : datetime) : Prop :=
  datetime_new (year t) (month t) (day t)
               (hour t) (minute t) (second t) (microsecond t) = Ok t.

(** The time of day, in microseconds. *)
Definition time_us (t : datetime) : Z :=
  ((hour t * 60 + minute t) * 60 + second t) * US_PER_SECOND + microsecond t.

(** The length of a month and the days before it, by the leap flag of the
    year. *)
Definition month_length (leapyear : bool) (m : Z) : Z :=
  if m =? 2 then (if leapyear then 29 else 28)
  else if (m =? 4) || (m =? 6) || (m =? 9) || (m =? 11) then 30 else 31.

Definition month_start (leapyear : bool) (m : Z) : Z :=
  nth (Z.to_nat m) [0; 0; 31; 59; 90; 120; 151; 181; 212; 243; 273; 304; 334] 0
  + (if (2 <? m) && leapyear then 1 else 0).

(** Month and day of day [n], counted from 0, of a year: the last steps
    of [ord2ymd]. *)
Definition month_day (leapyear : bool) (n : Z) : Z * Z :=
  let m := Z.shiftr (n + 50) 5 in
  let preceding := month_start leapyear m in
  if n <? preceding then
    let m := m - 1 in (m, n - (preceding - month_length leapyear m) + 1)
  else (m, n - preceding + 1).

End PyTime.

(** ** TimeWindowResolver: [parse_relative_delta] *)

Module RelTime.
Import Unicode Regex Py PyTime.
#[local] Open Scope py_scope.

(** [sys.get_int_max_str_digits()]: the longest numeral that [int]
    converts.  The program leaves the interpreter's default in place. *)
Definition INT_MAX_STR_DIGITS : nat := 4300.

Section WithTable.
Variable T : table.

(** [int(s)] on a run of decimal digits: a numeral with more digits than
    the limit raises [ValueError] (leading zeros count). *)
Definition int (s : str) : result Z :=
  if INT_MAX_STR_DIGITS <? length s then Raise ValueError
  else Ok (Z.of_N (int_of_digits T s)).

(** [(\d+)\s*([wdhms])] *)
Definition TOKEN_RE : re :=
  cat [Group 1 (Plus (cls_d T)); Star (cls_s T); Group 2 (one_of (py "wdhms"))].

Definition ZERO_LITERALS : list str :=
  [py "now"; py "0"; py "0h"; py "0m"; py "0s"].

(** The body of the loop, lines 91-103. *)
Definition add_token (total : timedelta) (m : groups) : result timedelta :=
  val <- int (group 1 m) ;;
  let unit := group 2 m in
  if str_eqb unit (py "w") then
    d <- timedelta_new val 0 0 0 0 ;; td_add total d
  else if str_eqb unit (py "d") then
    d <- timedelta_new 0 val 0 0 0 ;; td_add total d
  else if str_eqb unit (py "h") then
    d <- timedelta_new 0 0 val 0 0 ;; td_add total d
  else if str_eqb unit (py "m") then
    d <- timedelta_new 0 0 0 val 0 ;; td_add total d
  else if str_eqb unit (py "s") then
    d <- timedelta_new 0 0 0 0 val ;; td_add total d
  else Ok total.

Fixpoint sum_tokens (total : timedelta) (ms : list groups) : result timedelta :=
  match ms with
  | [] => Ok total
  | m :: ms' => t <- add_token total m ;; sum_tokens t ms'
  end.

Definition parse_relative_delta (expr : option str) : result (option timedelta) :=
  match expr with
  | None => Ok None
  | Some expr =>
      let expr := lower T (strip T expr) in
      if existsb (str_eqb expr) ZERO_LITERALS then Ok (Some td_zero)
      else
        let ms := finditer T TOKEN_RE expr in
        total <- sum_tokens td_zero ms ;;
        match ms with
        | [] => Raise ValueError
        | _ :: _ => Ok (Some total)
        end
  end.

End WithTable.

(** *** Tokens

    The words in which the claims about relative-time expressions are
    stated. *)

(** A token of an expression: its digits and its unit letter. *)
Definition token : Type := (str * char)%type.

Definition is_unit (u : char) : bool := existsb (char_eqb u) (py "wdhms").

Definition wf_token (t : token) : Prop :=
  fst t <> [] /\ forallb ascii_digit (fst t) = true /\ is_unit (snd t) = true.

(** The expression written by putting the tokens one after the other. *)
Definition render (l : list token) : str :=
  concat (map (fun t => fst t ++ [snd t]) l).

(** The groups of the match of [TOKEN_RE] on a token. *)
Definition token_groups (t : token) : groups := [(2, [snd t]); (1, fst t)].

Definition unit_us (u : char) : Z :=
  (if char_eqb u 119 then 7 * US_PER_DAY            (* w *)
   else if char_eqb u 100 then US_PER_DAY           (* d *)
   else if char_eqb u 104 then 3600 * US_PER_SECOND (* h *)
   else if char_eqb u 109 then 60 * US_PER_SECOND   (* m *)
   else if char_eqb u 115 then US_PER_SECOND        (* s *)
   else 0)%Z.

Definition sum_us (ds : list Z) : Z := fold_right Z.add 0%Z ds.

(** The result for the durations of the tokens found, when [int] converts
    every numeral: none is an invalid expression; a sum out of range is an
    overflow. *)
Definition total_result (ds : list Z) : result (option timedelta) :=
  match ds with
  | [] => Raise ValueError
  | _ :: _ => t <- td_check (sum_us ds) ;; Ok (Some t)
  end.

Section Tokens.
Variable T : table.

Definition token_us (t : token) : Z :=
  (Z.of_N (int_of_digits T (fst t)) * unit_us (snd t))%Z.

(** The duration that one match of [TOKEN_RE] adds. *)
Definition match_us (m : groups) : Z :=
  match group 2 m with
  | [u] => (Z.of_N (int_of_digits T (group 1 m)) * unit_us u)%Z
  | _ => 0%Z
  end.

(** A token somewhere in the text, as [TOKEN_RE] reads it: digits, white
    space or none, a unit letter. *)
Definition has_token (e : str) : Prop :=
  exists pre ds ws u post,
    e = pre ++ ds ++ ws ++ u :: post
    /\ ds <> [] /\ Forall (fun c => isdecimal T c = true) ds
    /\ Forall (fun c => isspace T c = true) ws
    /\ is_unit u = true.

(** The numeral of a match has more digits than [int] converts. *)
Definition too_long (m : groups) : bool :=
  INT_MAX_STR_DIGITS <? length (group 1 m).

(** The loop comes to a numeral that [int] refuses: the numerals of the
    matches before it are within the limit, and their durations add up to
    a total within the range of [timedelta]. *)
Definition reaches_long_numeral (ms : list groups) : Prop :=
  exists before m after,
    ms = before ++ m :: after
    /\ Forall (fun x => too_long x = false) before
    /\ too_long m = true
    /\ (sum_us (map match_us before) < LIMIT_US)%Z.

(** A digit directly followed by a unit letter. *)
Fixpoint digit_then_unit (e : str) : bool :=
  match e with
  | a :: (b :: _) as rest => (isdecimal T a && is_unit b) || digit_then_unit rest
  | _ => false
  end.

(** A character that [strip] and [lower] leave alone. *)
Definition plain (c : char) : Prop :=
  isspace T c = false /\ is_ascii c = true /\ ascii_upper c = false.

(** The path of [parse_relative_delta] past the zero literals. *)
Definition general (e : str) : result (option timedelta) :=
  let ms := finditer T (TOKEN_RE T) e in
  total <- sum_tokens T td_zero ms ;;
  match ms with
  | [] => Raise ValueError
  | _ :: _ => Ok (Some total)
  end.

End Tokens.

End RelTime.

(** ** LineParser: [LOG_LINE_RE], [datetime.strptime] and one line of
    [parse_logs] *)

Module LineParser.
Import Unicode Regex Py PyTime.
#[local] Open Scope py_scope.

Record row := Row {
  timestamp : str;
  level : str;
  message : str;
  source_file : str
}.

Definition G_ts : nat := 1.
Definition G_level : nat := 2.
Definition G_msg : nat := 3.

Definition dash : re := Lit 45%N.
Definition colon : re := Lit 58%N.
Definition dot : re := Lit 46%N.
Definition digit_range (lo hi : N) : re := range (48 + lo)%N (48 + hi)%N.
Definition digit (d : N) : re := Lit (48 + d)%N.

(** [os.path.basename] *)
Fixpoint basename_from (acc : str) (p : str) : str :=
  match p with
  | [] => rev acc
  | c :: p' => if char_eqb c 47%N then basename_from [] p'
               else basename_from (c :: acc) p'
  end.
Definition basename (p : str) : str := basename_from [] p.

Section WithTable.
Variable T : table.

(** [\d{4}-\d{2}-\d{2}T\d{2}:\d{2}:\d{2}\.\d{3}] *)
Definition TS_RE : re :=
  cat [Rep 4 (cls_d T); dash; Rep 2 (cls_d T); dash; Rep 2 (cls_d T);
       Lit 84%N;
       Rep 2 (cls_d T); colon; Rep 2 (cls_d T); colon; Rep 2 (cls_d T);
       dot; Rep 3 (cls_d T)].

(** The line pattern: [^], the group [ts], then [\s+\S+\s+\S+\s+\S+\s+-\s+],
    the group [level] = [\w+], [\s+], the group [msg] = any run of
    characters other than a newline, and [$]. *)
Definition LOG_LINE_RE : re :=
  cat [Bol; Group G_ts TS_RE;
       Plus (cls_s T); Plus (cls_S T);
       Plus (cls_s T); Plus (cls_S T);
       Plus (cls_s T); Plus (cls_S T);
       Plus (cls_s T); dash; Plus (cls_s T);
       Group G_level (Plus (cls_w T));
       Plus (cls_s T);
       Group G_msg (Star cls_dot); Eol].

(** The pattern [datetime.strptime] builds for ["%Y-%m-%dT%H:%M:%S.%f"]
    (it is compiled ignoring case); groups 1..7 are Y m d H M S f. *)
Definition STRPTIME_RE : re :=
  cat [Group 1 (Rep 4 (cls_d T)); dash;
       Group 2 (alt (Cat (digit 1) (digit_range 0 2))
                    [Cat (digit 0) (digit_range 1 9); digit_range 1 9]);
       dash;
       Group 3 (alt (Cat (digit 3) (digit_range 0 1))
                    [Cat (digit_range 1 2) (cls_d T);
                     Cat (digit 0) (digit_range 1 9);
                     digit_range 1 9;
                     Cat (Lit 32%N) (digit_range 1 9)]);
       one_of (py "Tt");
       Group 4 (alt (Cat (digit 2) (digit_range 0 3))
                    [Cat (digit_range 0 1) (cls_d T); cls_d T]);
       colon;
       Group 5 (alt (Cat (digit_range 0 5) (cls_d T)) [cls_d T]);
       colon;
       Group 6 (alt (Cat (digit 6) (digit_range 0 1))
                    [Cat (digit_range 0 5) (cls_d T); cls_d T]);
       dot;
       Group 7 (Cat (digit_range 0 9) (UpTo 5 (digit_range 0 9)))].

(** [int] on a group of [STRPTIME_RE]: at most six digits, far within the
    limit on the length of a numeral. *)
Definition int (s : str) : Z := Z.of_N (int_of_digits T s).

(** [datetime.strptime(s, "%Y-%m-%dT%H:%M:%S.%f")]: the pattern must
    match and leave nothing over; the fraction is padded to microseconds;
    the [datetime] constructor then checks the ranges. *)
Definition strptime (s : str) : result datetime :=
  match run T STRPTIME_RE (start s) [] (fun c g => Some (c, g)) with
  | None => Raise ValueError
  | Some (c, g) =>
      match ahead c with
      | _ :: _ => Raise ValueError
      | [] =>
          let f := group 7 g in
          datetime_new (int (group 1 g)) (int (group 2 g)) (int (group 3 g))
                       (int (group 4 g)) (int (group 5 g)) (int (group 6 g))
                       (int (f ++ repeat 48%N (6 - length f)))
      end
  end.

(** The body of the loop over the lines of one file, lines 122-143:
    [None] stands for [continue]. *)
Definition parse_line (fp : str) (since_dt until_dt : option datetime)
           (line : str) : option row :=
  match re_match T LOG_LINE_RE line with
  | None => None
  | Some m =>
      let ts_str := group G_ts m in
      let level := upper T (group G_level m) in
      let msg := group G_msg m in
      if negb (existsb (str_eqb level) [py "ERROR"; py "WARN"]) then None
      else
        match strptime ts_str with
        | Raise _ => None
        | Ok ts =>
            if match since_dt with
               | Some s => datetime_ltb ts s
               | None => false
               end then None
            else if match until_dt with
                    | Some u => datetime_gtb ts u
                    | None => false
                    end then None
            else Some (Row ts_str level (strip T msg) (basename fp))
        end
  end.

End WithTable.

(** *** Lines used in the statements *)

(** The separator as [LOG_LINE_RE] reads it: a hyphen with a white-space
    character on either side. *)
Definition separated (T : table) (line : str) : Prop :=
  exists pre a b post,
    line = pre ++ a :: 45%N :: b :: post
    /\ isspace T a = true /\ isspace T b = true.

Definition sample_line (ts : string) : str :=
  py ts ++ py " host comp thread - ERROR Something failed".

Definition line_with_level (lvl : string) : str :=
  py "2024-01-15T10:30:00.123 host comp thread - " ++ py lvl
  ++ py " Something failed".

Definition line_without_separator : str :=
  py "2024-01-15T10:30:00.123 host comp thread ERROR Something failed".

(** The example line with tabs around the hyphen. *)
Definition line_with_tabs : str :=
  py "2024-01-15T10:30:00.123 host comp thread" ++ [9; 45; 9]%N
  ++ py "ERROR Something failed".

(** A record whose time stamp [strptime] reads. *)
Definition dated (T : table) (r : row) : bool :=
  match strptime T (timestamp r) with Ok _ => true | Raise _ => false end.

End LineParser.

(** ** Python containers: [sorted] / [list.sort], and insertion-ordered
    dictionaries *)

Module Containers.
Import Unicode.

Section Sort.
Variable A : Type.
(** [leb x y]: [x] may stand before [y]. *)
Variable leb : A -> A -> bool.

Fixpoint insert (x : A) (l : list A) : list A :=
  match l with
  | [] => [x]
  | y :: l' => if leb x y then x :: y :: l' else y :: insert x l'
  end.

(** A stable sort: of two elements that may stand either way round, the
    one that came first stays first, as Python's sort guarantees. *)
Fixpoint sort (l : list A) : list A :=
  match l with
  | [] => []
  | x :: l' => insert x (sort l')
  end.

End Sort.

(** The order of [str] values: code point by code point. *)
Fixpoint str_leb (a b : str) : bool :=
  match a, b with
  | [], _ => true
  | _ :: _, [] => false
  | x :: a', y :: b' => (x <? y)%N || ((x =? y)%N && str_leb a' b')
  end.

(** A [dict] keyed by strings, in insertion order. *)
Definition dict (V : Type) := list (str * V).

Section Dict.
Variable V : Type.

Fixpoint get (k : str) (d : dict V) : option V :=
  match d with
  | [] => None
  | (k', v) :: d' => if str_eqb k' k then Some v else get k d'
  end.

(** [d[k] = f(d[k])] on a [defaultdict] whose missing values are [dflt]:
    an existing key keeps its place, a new key goes last. *)
Fixpoint update (k : str) (f : V -> V) (dflt : V) (d : dict V) : dict V :=
  match d with
  | [] => [(k, f dflt)]
  | (k', v) :: d' =>
      if str_eqb k' k then (k', f v) :: d' else (k', v) :: update k f dflt d'
  end.

End Dict.

(** [collections.Counter] *)
Definition counter := dict nat.
Definition count_of (k : str) (c : counter) : nat :=
  match get k c with Some n => n | None => 0 end.
Definition incr (k : str) (c : counter) : counter := update k S 0 c.

(** *** Words for the statements about dictionaries and counters *)

Definition keys (V : Type) (d : dict V) : list str := map fst d.

(** The distinct elements of a list, in the order of their first
    occurrence. *)
Fixpoint first_seen (l : list str) : list str :=
  match l with
  | [] => []
  | x :: l' => x :: filter (fun y => negb (str_eqb y x)) (first_seen l')
  end.

Definition sum (l : list nat) : nat := fold_right Nat.add 0 l.

(** The sum of the counts that a [Counter] holds. *)
Definition total (c : counter) : nat := sum (map snd c).

End Containers.

(** ** LogIngestor: [parse_logs] *)

Module Ingest.
Import Unicode Py PyTime LineParser Containers.

(** What reading one path does: the lines delivered, and how the reading
    ended.  A file that is gone when it is opened delivers no line and
    ends with [FileNotFoundError]. *)
Inductive ending : Type := Eof | Fails (e : exn).
Record reading := Reading { lines_read : list str; ended : ending }.
Definition filesystem := str -> reading.

Section WithTable.
Variable T : table.

(** The rows appended while the lines of one file are read. *)
Fixpoint rows_of_lines (fp : str) (since_dt until_dt : option datetime)
         (lines : list str) : list row :=
  match lines with
  | [] => []
  | line :: rest =>
      match parse_line T fp since_dt until_dt line with
      | Some r => r :: rows_of_lines fp since_dt until_dt rest
      | None => rows_of_lines fp since_dt until_dt rest
      end
  end.

(** The loop over the files, lines 118-146, with the list of the paths
    opened so far. *)
Fixpoint read_files (fs : filesystem) (since_dt until_dt : option datetime)
         (files : list str) (rows : list row) (opened : list str)
  : result (list row) * list str :=
  match files with
  | [] => (Ok rows, opened)
  | fp :: rest =>
      let rd := fs fp in
      let rows' := rows ++ rows_of_lines fp since_dt until_dt (lines_read rd) in
      match ended rd with
      | Eof => read_files fs since_dt until_dt rest rows' (opened ++ [fp])
      | Fails FileNotFoundError =>
          read_files fs since_dt until_dt rest rows' (opened ++ [fp])
      | Fails e => (Raise e, opened ++ [fp])
      end
  end.

(** [parse_logs]: [found] is the answer of the recursive [glob]. *)
Definition parse_logs (fs : filesystem) (found : list str)
           (since_dt until_dt : option datetime)
  : result (list row) * list str :=
  let files := sort str_leb found in
  match files with
  | [] => (Raise SystemExit, [])
  | _ :: _ => read_files fs since_dt until_dt files [] []
  end.

End WithTable.

(** *** Words for the statements about the ingestion *)

(** A reading that ends as [parse_logs] can bear: at the end of the file,
    or with the file gone. *)
Definition benign (rd : reading) : Prop :=
  ended rd = Eof \/ ended rd = Fails FileNotFoundError.

(** The rows that the files deliver, file after file. *)
Definition rows_of_files (T : table) (fs : filesystem)
           (since_dt until_dt : option datetime) (files : list str) : list row :=
  flat_map (fun fp => rows_of_lines T fp since_dt until_dt (lines_read (fs fp)))
           files.

(** A file system with one log of three lines, the second with month 13. *)
Definition sample_fs : filesystem :=
  fun _ => Reading [sample_line "2024-01-15T10:30:00.123";
                    sample_line "2024-13-15T10:30:00.123";
                    sample_line "2024-01-15T10:31:00.000"] Eof.

(** A file system where [a.log] holds one line and every other file is
    gone by the time it is opened. *)
Definition rotating_fs : filesystem :=
  fun fp => if str_eqb fp (py "a.log")
            then Reading [sample_line "2024-01-15T10:30:00.123"] Eof
            else Reading [] (Fails FileNotFoundError).

End Ingest.

(** ** [main]: the time window, and the Aggregator *)

Module Main.
Import Unicode Py PyTime RelTime LineParser Containers Ingest Normalizer.
#[local] Open Scope py_scope.

Record summary_row := SummaryRow { family : str; count : nat }.

Record series := Series {
  daily : counter;
  hourly : counter;
  fam_daily : dict counter;
  fam_hourly : dict counter
}.

(** Decimal digits of a number, zero-padded to [width]. *)
Fixpoint digits_of (width : nat) (n : Z) : str :=
  match width with
  | O => []
  | S w => digits_of w (n / 10) ++ [Z.to_N (48 + n mod 10)]
  end.

(** [dt.strftime("%Y-%m-%d")] and [dt.strftime("%Y-%m-%d %H:00")].  The
    C library prints the year as a plain number, without padding (year
    999 reads [999]); month, day and hour take two digits. *)
Definition year_width (y : Z) : nat :=
  if (y <? 10)%Z then 1 else if (y <? 100)%Z then 2
  else if (y <? 1000)%Z then 3 else 4.
Definition day_key (dt : datetime) : str :=
  digits_of (year_width (year dt)) (year dt) ++ py "-"
  ++ digits_of 2 (month dt) ++ py "-" ++ digits_of 2 (day dt).
Definition hour_key (dt : datetime) : str :=
  day_key dt ++ py " " ++ digits_of 2 (hour dt) ++ py ":00".

Section WithTable.
Variable T : table.

(** Lines 629-633. *)
Definition resolve_window (now : datetime) (since : option str) (until : str)
  : result (option datetime * datetime) :=
  du <- parse_relative_delta T (Some until) ;;
  until_dt <- datetime_add now (match du with Some d => d | None => td_zero end) ;;
  since_dt <- match since with
              | None | Some [] => Ok None
              | Some s =>
                  ds <- parse_relative_delta T (Some s) ;;
                  match ds with
                  | Some d => t <- datetime_sub now d ;; Ok (Some t)
                  | None => Raise TypeError
                  end
              end ;;
  Ok (since_dt, until_dt).

(** Lines 634-638: the guard on the window, then the ingestion. *)
Definition analyse (fs : filesystem) (found : list str)
           (since_dt : option datetime) (until_dt : datetime)
  : result (list row) * list str :=
  if match since_dt with
     | Some s => datetime_gtb s until_dt
     | None => false
     end
  then (Raise SystemExit, [])
  else parse_logs T fs found since_dt (Some until_dt).

Definition main_rows (fs : filesystem) (found : list str) (now : datetime)
           (since : option str) (until : str) : result (list row) * list str :=
  match resolve_window now since until with
  | Raise e => (Raise e, [])
  | Ok (since_dt, until_dt) => analyse fs found since_dt until_dt
  end.

(** Lines 642-644. *)
Definition group_families (rows : list row) : dict (list row) :=
  fold_left
    (fun families r =>
       update (normalize_message T (message r)) (fun items => items ++ [r]) []
              families)
    rows [].

(** Lines 646-647: [reverse=True] puts the larger count first and keeps
    the order of equal counts. *)
Definition summary_of (families : dict (list row)) : list summary_row :=
  sort (fun a b => count b <=? count a)
       (map (fun entry => SummaryRow (fst entry) (length (snd entry))) families).

(** Lines 673-682, for one record of one family. *)
Definition count_record (fam : str) (r : row) (s : series) : series :=
  match strptime T (timestamp r) with
  | Raise _ => s
  | Ok dt =>
      let d := day_key dt in
      let h := hour_key dt in
      Series (incr d (daily s)) (incr h (hourly s))
             (update fam (incr d) [] (fam_daily s))
             (update fam (incr h) [] (fam_hourly s))
  end.

(** Lines 666-682. *)
Definition time_series (families : dict (list row)) : series :=
  fold_left
    (fun s entry =>
       fold_left (fun s r => count_record (fst entry) r s) (snd entry) s)
    families (Series [] [] [] []).

(** [fam_daily[f][d]], reading a missing entry as zero. *)
Definition count_in (f k : str) (tbl : dict counter) : nat :=
  match get f tbl with Some c => count_of k c | None => 0 end.

End WithTable.

(** *** Words for the statements about the aggregation *)

(** The sum of the counts of one family's [Counter]. *)
Definition total_in (f : str) (tbl : dict counter) : nat :=
  match get f tbl with Some c => total c | None => 0 end.

Definition items_of (f : str) (d : dict (list row)) : list row :=
  match get f d with Some items => items | None => [] end.

Definition unsorted_summary (families : dict (list row)) : list summary_row :=
  map (fun entry => SummaryRow (fst entry) (length (snd entry))) families.

Definition by_count (a b : summary_row) : bool := count b <=? count a.

(** Summed over the families [F], the family series agree with the
    overall series, bucket by bucket. *)
Definition balanced (F : list str) (s : series) : Prop :=
  (forall d, sum (map (fun f => count_in f d (fam_daily s)) F)
             = count_of d (daily s))
  /\ (forall h, sum (map (fun f => count_in f h (fam_hourly s)) F)
                = count_of h (hourly s)).

(** The records of the entries that satisfy [p]. *)
Definition dated_in (p : row -> bool) (entries : dict (list row)) : nat :=
  sum (map (fun e => length (filter p (snd e))) entries).

Section Aggregation.
Variable T : table.

Definition family_of (r : row) : str := normalize_message T (message r).

(** How many of the records belong to a family. *)
Definition count_family (f : str) (rows : list row) : nat :=
  length (filter (fun r => str_eqb (family_of r) f) rows).

(** One turn of the loop of lines 643-644. *)
Definition add_row (families : dict (list row)) (r : row) : dict (list row) :=
  update (family_of r) (fun items => items ++ [r]) [] families.

(** The inner and the outer loop of lines 671-682. *)
Definition count_items (fam : str) (items : list row) (s : series) : series :=
  fold_left (fun s r => count_record T fam r s) items s.

Definition count_entries (entries : dict (list row)) (s : series) : series :=
  fold_left (fun s entry => count_items (fst entry) (snd entry) s) entries s.

(** The dated records of the entries of family [f]. *)
Definition dated_of (f : str) (entries : dict (list row)) : nat :=
  sum (map (fun e => if str_eqb (fst e) f
                     then length (filter (dated T) (snd e)) else 0) entries).

(** The totals after the records of some entries have been counted. *)
Definition totals_after (entries : dict (list row)) (s0 s : series) : Prop :=
  total (daily s) = total (daily s0) + dated_in (dated T) entries
  /\ total (hourly s) = total (hourly s0) + dated_in (dated T) entries
  /\ (forall f, total_in f (fam_daily s)
                = total_in f (fam_daily s0) + dated_of f entries)
  /\ (forall f, total_in f (fam_hourly s)
                = total_in f (fam_hourly s0) + dated_of f entries).

End Aggregation.

End Main.

(* ===================================================================== *)
(** * Part II: what the program does                                      *)
(* ===================================================================== *)

(** ** Strings *)

Module StrFacts.
Import Unicode.

Lemma char_eqb_eq (a b : char) : char_eqb a b = true <-> a = b.
Proof. apply N.eqb_eq. Qed.

Lemma str_eqb_eq (a b : str) : str_eqb a b = true <-> a = b.
Proof.
  revert b; induction a as [|x a IH]; intros [|y b]; simpl; split;
    try congruence; try reflexivity.
  - intros H. apply andb_true_iff in H as [H1 H2].
    apply char_eqb_eq in H1. apply IH in H2. congruence.
  - intros H. injection H as -> ->.
    apply andb_true_iff. split; [apply char_eqb_eq | apply IH]; reflexivity.
Qed.

Lemma str_eqb_refl (a : str) : str_eqb a a = true.
Proof. apply str_eqb_eq. reflexivity. Qed.

Lemma starts_with_spec (n h : str) :
  starts_with n h = true <-> exists post, h = n ++ post.
Proof.
  revert h; induction n as [|x n IH]; intros h; simpl.
  - split; [intros _; exists h; reflexivity | reflexivity].
  - destruct h as [|y h].
    + split; [discriminate | intros [post H]; discriminate].
    + rewrite andb_true_iff, char_eqb_eq, IH. split.
      * intros [-> [post ->]]. exists post. reflexivity.
      * intros [post H]. injection H as -> ->. split; [reflexivity | eauto].
Qed.

(** [needle in hay] holds exactly when [hay] splits around [needle]. *)
Lemma contains_spec (n h : str) :
  contains n h = true <-> exists pre post, h = pre ++ n ++ post.
Proof.
  induction h as [|y h IH].
  - simpl. rewrite orb_false_r, starts_with_spec. split.
    + intros [post H]. exists [], post. exact H.
    + intros [pre [post H]]. destruct pre; simpl in H.
      * exists post. exact H.
      * discriminate.
  - cbn [contains]. rewrite orb_true_iff, starts_with_spec, IH. split.
    + intros [[post H] | [pre [post H]]].
      * exists [], post. exact H.
      * exists (y :: pre), post. rewrite H. reflexivity.
    + intros [pre [post H]]. destruct pre as [|z pre]; simpl in H.
      * left. exists post. exact H.
      * right. injection H as -> ->. exists pre, post. reflexivity.
Qed.

Lemma contains_firstn (n h : str) (k : nat) :
  contains n (firstn k h) = true -> contains n h = true.
Proof.
  rewrite !contains_spec. intros [pre [post H]].
  exists pre, (post ++ skipn k h).
  rewrite <- (firstn_skipn k h) at 1. rewrite H, <- !app_assoc. reflexivity.
Qed.

(** A needle that does not hold [e] and is found in [h ++ [e]] is found in
    [h] already. *)
Lemma contains_snoc (n h : str) (e : char) :
  n <> [] -> ~ In e n ->
  contains n (h ++ [e]) = true -> contains n h = true.
Proof.
  intros Hne Hin. rewrite !contains_spec. intros [pre [post H]].
  destruct post as [|x post _] using rev_ind.
  - exfalso. rewrite app_nil_r in H.
    destruct n as [|y n _] using rev_ind; [congruence|].
    rewrite app_assoc in H. apply app_inj_tail in H as [_ ->].
    apply Hin, in_or_app. right. left. reflexivity.
  - rewrite !app_assoc in H. apply app_inj_tail in H as [H _].
    exists pre, post. rewrite H, app_assoc. reflexivity.
Qed.
End StrFacts.

(** ** The matcher: sound and complete for [Matches] *)

Module RegexFacts.
Import Unicode Regex StrFacts.


Section WithTable.
Variable T : table.

Lemma run_Star (A : Type) (r : re) c g (k : cursor -> groups -> option A) :
  run T (Star r) c g k = star_loop (run T (A := A) r) k (length (ahead c)) c g.
Proof. reflexivity. Qed.

(** Soundness: an answer of [run] is an answer of the continuation at the
    end of a match. *)
Lemma run_sound (A : Type) (r : re) :
  forall c g (k : cursor -> groups -> option A) res,
    run T r c g k = Some res ->
    exists c' g', Matches T r c c' /\ k c' g' = Some res.
Proof.
  induction r as [|p|r1 IH1 r2 IH2|r1 IH1 r2 IH2|r IH| | | |i r IH];
    intros c g k res H.
  - exists c, g. split; [constructor | exact H].
  - simpl in H. destruct c as [b [|x rest]]; simpl in H; [discriminate|].
    destruct (p x) eqn:E; [|discriminate].
    eexists _, g. split; [constructor; exact E | exact H].
  - simpl in H. apply IH1 in H as (c1 & g1 & M1 & H).
    apply IH2 in H as (c2 & g2 & M2 & H).
    exists c2, g2. split; [econstructor; eassumption | exact H].
  - simpl in H. destruct (run T r1 c g k) eqn:E.
    + injection H as ->. apply IH1 in E as (c' & g' & M & E).
      exists c', g'. split; [apply M_AltL; exact M | exact E].
    + apply IH2 in H as (c' & g' & M & H).
      exists c', g'. split; [apply M_AltR; exact M | exact H].
  - rewrite run_Star in H.
    remember (length (ahead c)) as n eqn:En. clear En.
    revert c g H. induction n as [|n IHn]; intros c g H; simpl in H.
    + exists c, g. split; [constructor | exact H].
    + destruct (run T r c g _) eqn:E.
      * injection H as ->. apply IH in E as (c1 & g1 & M1 & E).
        destruct (length (ahead c1) <? length (ahead c)) eqn:Lt; [|discriminate].
        apply IHn in E as (c2 & g2 & M2 & E).
        exists c2, g2. split; [|exact E].
        eapply M_StarS; eauto. apply Nat.ltb_lt. exact Lt.
      * exists c, g. split; [constructor | exact H].
  - simpl in H. destruct (behind c) eqn:E; [|discriminate].
    exists c, g. split; [constructor; exact E | exact H].
  - simpl in H. destruct (ahead c) as [|x [|y rest]] eqn:E; try discriminate.
    + exists c, g. split; [constructor; left; exact E | exact H].
    + destruct (char_eqb x 10) eqn:Ex; [|discriminate].
      apply char_eqb_eq in Ex. subst x.
      exists c, g. split; [constructor; right; exact E | exact H].
  - simpl in H. destruct (at_boundary T c) eqn:E; [|discriminate].
    exists c, g. split; [constructor; exact E | exact H].
  - simpl in H. apply IH in H as (c' & g' & M & H).
    eexists c', _. split; [constructor; exact M | exact H].
Qed.

(** Completeness: where a match exists whose end the continuation
    accepts, [run] answers. *)
Lemma run_complete (A : Type) (r : re) :
  forall c c', Matches T r c c' ->
  forall g (k : cursor -> groups -> option A),
    (forall g', k c' g' <> None) -> run T r c g k <> None.
Proof.
  induction r as [|p|r1 IH1 r2 IH2|r1 IH1 r2 IH2|r IH| | | |i r IH];
    intros c c' M g k Hk.
  - inversion M; subst. apply Hk.
  - inversion M; subst. simpl. rewrite H0. apply Hk.
  - inversion M; subst. simpl. eapply IH1; [eassumption|].
    intros g'. eapply IH2; eassumption.
  - simpl. inversion M; subst.
    + specialize (IH1 _ _ H3 g k Hk). destruct (run T r1 c g k); congruence.
    + destruct (run T r1 c g k); [congruence|]. eapply IH2; eassumption.
  - rewrite run_Star.
    assert (G : forall n, length (ahead c) <= n ->
                star_loop (run T (A := A) r) k n c g <> None).
    { clear - IH M Hk. revert g. remember (Star r) as sr eqn:Esr.
      induction M; try discriminate; injection Esr as ->; intros g n Hn.
      - destruct n; simpl; [apply Hk|].
        destruct (run T r c g _); [congruence | apply Hk].
      - destruct n as [|n]; [lia|]. simpl.
        match goal with |- context [run T r c g ?k'] =>
          assert (R : run T r c g k' <> None) end.
        { eapply IH; [exact M1|]. intros g'.
          rewrite (proj2 (Nat.ltb_lt _ _) H). apply IHM2; auto; lia. }
        destruct (run T r c g _); congruence. }
    apply G. lia.
  - inversion M; subst. simpl. rewrite H. apply Hk.
  - inversion M; subst. simpl. destruct H as [-> | ->]; apply Hk.
  - inversion M; subst. simpl. rewrite H. apply Hk.
  - inversion M; subst. simpl. eapply IH; [eassumption|]. intros g'. apply Hk.
Qed.

(** A match moves forward inside one subject. *)
Lemma Matches_subject (r : re) c c' :
  Matches T r c c' ->
  subject c' = subject c /\ length (ahead c') <= length (ahead c).
Proof.
  induction 1; try (split; [reflexivity | lia]).
  - unfold subject; simpl. rewrite <- app_assoc. split; [reflexivity | lia].
  - destruct IHMatches1, IHMatches2. split; [congruence | lia].
  - assumption.
  - assumption.
  - destruct IHMatches1, IHMatches2. split; [congruence | lia].
  - assumption.
Qed.

(** *** Runs of one character class *)

Lemma Matches_star_cls (p : char -> bool) xs b rest :
  Forall (fun x => p x = true) xs ->
  Matches T (Star (Cls p)) (Cursor b (xs ++ rest)) (Cursor (rev xs ++ b) rest).
Proof.
  revert b. induction xs as [|x xs IH]; intros b F.
  - constructor.
  - inversion F; subst. eapply M_StarS.
    + simpl. constructor. assumption.
    + simpl. lia.
    + specialize (IH (x :: b) H2). simpl. rewrite <- app_assoc. exact IH.
Qed.

Lemma Matches_plus_cls (p : char -> bool) xs b rest :
  xs <> [] -> Forall (fun x => p x = true) xs ->
  Matches T (Plus (Cls p)) (Cursor b (xs ++ rest)) (Cursor (rev xs ++ b) rest).
Proof.
  intros Hne F. destruct xs as [|x xs]; [congruence|]. inversion F; subst.
  unfold Plus, AtLeast. simpl Rep. eapply M_Cat.
  - eapply M_Cat; [constructor; eassumption | constructor].
  - simpl. rewrite <- app_assoc. apply Matches_star_cls. assumption.
Qed.

Lemma Matches_cls_inv (p : char -> bool) c c' :
  Matches T (Cls p) c c' ->
  exists x, p x = true /\ ahead c = x :: ahead c' /\ behind c' = x :: behind c.
Proof. inversion 1; subst. exists x. auto. Qed.

Lemma Matches_star_cls_inv (p : char -> bool) c c' :
  Matches T (Star (Cls p)) c c' ->
  exists xs, Forall (fun x => p x = true) xs
             /\ ahead c = xs ++ ahead c' /\ behind c' = rev xs ++ behind c.
Proof.
  remember (Star (Cls p)) as r eqn:Er. induction 1; try discriminate.
  - exists []. auto.
  - injection Er as ->. destruct (IHMatches2 eq_refl) as (xs & F & Ha & Hb).
    apply Matches_cls_inv in H as (x & Px & Hx & Hy).
    exists (x :: xs). split; [constructor; assumption|].
    split; [rewrite Hx, Ha; reflexivity|].
    rewrite Hb, Hy. simpl. rewrite <- app_assoc. reflexivity.
Qed.

Lemma Matches_plus_cls_inv (p : char -> bool) c c' :
  Matches T (Plus (Cls p)) c c' ->
  exists xs, xs <> [] /\ Forall (fun x => p x = true) xs
             /\ ahead c = xs ++ ahead c' /\ behind c' = rev xs ++ behind c.
Proof.
  unfold Plus, AtLeast. simpl Rep. intros M.
  inversion M as [| |r1 r2 c0 c1 c2 M1 M2| | | | | | | |]; subst.
  inversion M1 as [| |r1 r2 c0 c3 c4 M3 M4| | | | | | | |]; subst.
  inversion M4; subst.
  apply Matches_cls_inv in M3 as (x & Px & Hx & Hy).
  apply Matches_star_cls_inv in M2 as (xs & F & Ha & Hb).
  exists (x :: xs). split; [discriminate|]. split; [constructor; assumption|].
  split; [rewrite Hx, Ha; reflexivity|].
  rewrite Hb, Hy. simpl. rewrite <- app_assoc. reflexivity.
Qed.

Lemma run_Cls_cons (A : Type) (p : char -> bool) x b s g
      (k : cursor -> groups -> option A) :
  run T (Cls p) (Cursor b (x :: s)) g k
  = if p x then k (Cursor (x :: b) s) g else None.
Proof. reflexivity. Qed.

(** The greedy run: when the characters [xs] are all of the class, the
    next one is not, and the continuation accepts the position after
    [xs], that is the answer. *)
Lemma run_star_cls_greedy (A : Type) (p : char -> bool) xs b rest g
      (k : cursor -> groups -> option A) res :
  Forall (fun x => p x = true) xs ->
  match rest with [] => True | y :: _ => p y = false end ->
  k (Cursor (rev xs ++ b) rest) g = Some res ->
  run T (Star (Cls p)) (Cursor b (xs ++ rest)) g k = Some res.
Proof.
  revert b. induction xs as [|x xs IH]; intros b F Hrest Hk.
  - rewrite run_Star. simpl app. destruct rest as [|y rest]; [exact Hk|].
    cbn [ahead length star_loop]. rewrite run_Cls_cons, Hrest. exact Hk.
  - inversion F; subst.
    assert (Hk' : k (Cursor (rev xs ++ x :: b) rest) g = Some res)
      by (simpl in Hk; rewrite <- app_assoc in Hk; exact Hk).
    specialize (IH (x :: b) H2 Hrest Hk'). rewrite run_Star in IH |- *.
    cbn [ahead] in IH |- *.
    change (length ((x :: xs) ++ rest)) with (S (length (xs ++ rest))).
    cbn [star_loop]. cbn [app]. rewrite run_Cls_cons, H1. cbn [ahead].
    replace (length (xs ++ rest) <? length (x :: xs ++ rest)) with true
      by (symmetry; apply Nat.ltb_lt; simpl; lia).
    rewrite IH. reflexivity.
Qed.

(** *** Scanning: [finditer] finds something exactly when some position
    of the subject has a match *)

Lemma finditer_from_nonempty (r : re) (fuel : nat) (c : cursor) :
  finditer_from T r fuel c <> [] ->
  exists c1, reaches c c1 /\ match_at T r c1 <> None.
Proof.
  revert c. induction fuel as [|fuel IH]; intros c H; simpl in H; [congruence|].
  destruct (match_at T r c) as [[c' g]|] eqn:E.
  - exists c. split; [exists []; auto | congruence].
  - destruct c as [b [|x rest]]; simpl in H; [congruence|].
    apply IH in H as (c1 & (sk & Ha & Hb) & Hm). exists c1. split; [|exact Hm].
    exists (x :: sk). simpl in *. split; [congruence|].
    rewrite Hb, <- app_assoc. reflexivity.
Qed.

Lemma finditer_from_finds (r : re) (fuel : nat) (c c1 : cursor) :
  reaches c c1 -> match_at T r c1 <> None ->
  length (ahead c) < fuel ->
  finditer_from T r fuel c <> [].
Proof.
  intros (sk & Ha & Hb). revert c fuel Ha Hb.
  induction sk as [|x sk IH]; intros c fuel Ha Hb Hm Hf.
  - assert (c = c1) as -> by (destruct c, c1; simpl in *; congruence).
    destruct fuel; [lia|]. simpl.
    destruct (match_at T r c1) as [[c' g]|]; congruence.
  - destruct fuel; [lia|]. simpl.
    destruct (match_at T r c) as [[c' g]|]; [congruence|].
    destruct c as [b rest]. simpl in Ha. subst rest. simpl.
    apply IH; simpl; auto.
    + rewrite Hb. simpl. rewrite <- app_assoc. reflexivity.
    + simpl in Hf. lia.
Qed.

End WithTable.
End RegexFacts.

(** ** MessageNormalizer *)

Module NormalizerFacts.
Import Unicode Regex Normalizer StrFacts.

Section WithTable.
Variable T : table.

Lemma normalize_rule (msg label : str) :
  matched_rule (substituted T msg) = Some label ->
  normalize_message T msg = label.
Proof. unfold normalize_message, classify. intros ->. reflexivity. Qed.

(** The second rule: on a substituted text that holds one of its three
    triggers and none of the first rule's, the family is the collision
    family. *)
Lemma collision_rule (msg : str) :
  let m := substituted T msg in
  contains (py "[WSIAuthenticatorImpl] login exception") m
  || contains (py "WSIAuthenticatorImpl") m = false ->
  contains (py "MethodName: checkNameCollision") m
  || contains (py "E_NOT_UNIQUE") m
  || contains (py "FNRCE0043E") m = true ->
  normalize_message T msg = FAMILY_COLLISION.
Proof.
  intros m H1 H2. apply normalize_rule. fold m. unfold matched_rule.
  rewrite H1, H2. reflexivity.
Qed.

(** C1. A message that carries the error code [FNRCE0043E] as a token of
    its own does not reach the collision family: the code is an upper-case
    token of ten characters, so line 59 has replaced it by the placeholder
    before line 65 looks for it. *)
Theorem C1_error_code_is_replaced_before_the_rule :
  substituted T (py "FNRCE0043E: Name already exists")
    = py "{ID}: Name already exists"
  /\ normalize_message T (py "FNRCE0043E: Name already exists")
    = py "{ID}: Name already exists"
  /\ normalize_message T (py "FNRCE0043E: Name already exists")
    <> FAMILY_COLLISION.
Proof.
  repeat split; try (vm_compute; reflexivity).
  intro H. vm_compute in H. discriminate H.
Qed.

Lemma matched_rule_truncated (m : str) :
  matched_rule m = None ->
  matched_rule (firstn 140 m ++ py "…") = None.
Proof.
  unfold matched_rule.
  repeat match goal with
  | |- context [contains ?n m] =>
      let E := fresh "E" in
      destruct (contains n m) eqn:E; cbn [orb]; try discriminate;
      assert (contains n (firstn 140 m ++ py "…") = false) as ->
        by (destruct (contains n (firstn 140 m ++ py "…")) eqn:E'; [|reflexivity];
            apply contains_snoc in E';
            [apply contains_firstn in E'; congruence
            | vm_compute; discriminate
            | vm_compute; intuition discriminate])
  end.
  reflexivity.
Qed.

(** C2, as amended.  When no rule applies and the substituted text is
    longer than 140 characters, the family is its first 140 characters
    and the ellipsis; normalising that family again gives it back
    whenever the substitutions of lines 58-61 leave it as it is. *)
Theorem C2_truncation_and_second_application (msg : str) :
  matched_rule (substituted T msg) = None ->
  140 < length (substituted T msg) ->
  normalize_message T msg = firstn 140 (substituted T msg) ++ py "…"
  /\ (substituted T (normalize_message T msg) = normalize_message T msg ->
      normalize_message T (normalize_message T msg) = normalize_message T msg).
Proof.
  intros Hrule Hlen.
  assert (Hn : normalize_message T msg = firstn 140 (substituted T msg) ++ py "…").
  { unfold normalize_message, classify, truncated. rewrite Hrule.
    apply Nat.ltb_lt in Hlen. rewrite Hlen. reflexivity. }
  split; [exact Hn|].
  intros Hfix. unfold normalize_message at 1, classify.
  rewrite Hfix, Hn, (matched_rule_truncated _ Hrule).
  unfold truncated.
  assert (L : length (firstn 140 (substituted T msg)) = 140)
    by (rewrite length_firstn; lia).
  replace (140 <? length (firstn 140 (substituted T msg) ++ py "…")) with true
    by (symmetry; apply Nat.ltb_lt; rewrite length_app, L; simpl; lia).
  rewrite <- L at 1.
  rewrite firstn_app, firstn_all, Nat.sub_diag, firstn_0, app_nil_r.
  reflexivity.
Qed.

End WithTable.

(** C2, as stated, fails: the cut at 140 characters can end a word early,
    and the upper-case run it leaves, now followed by the ellipsis, is a
    token that the second application replaces. *)
Lemma C2_second_application_differs :
  matched_rule (substituted ascii_only cut_inside_word) = None
  /\ 140 < length (substituted ascii_only cut_inside_word)
  /\ normalize_message ascii_only cut_inside_word
     = repeat 97%N 130 ++ py " ABCDEFGHI…"
  /\ normalize_message ascii_only (normalize_message ascii_only cut_inside_word)
     = repeat 97%N 130 ++ py " {ID}…"
  /\ normalize_message ascii_only (normalize_message ascii_only cut_inside_word)
     <> normalize_message ascii_only cut_inside_word.
Proof.
  split; [vm_compute; reflexivity|].
  split; [vm_compute; lia|].
  split; [vm_compute; reflexivity|].
  split; [vm_compute; reflexivity|].
  intro H. vm_compute in H. discriminate H.
Qed.

Lemma C2_truncation_witness :
  normalize_message ascii_only repeated_text
  = firstn 140 (substituted ascii_only repeated_text) ++ py "…"
  /\ normalize_message ascii_only (normalize_message ascii_only repeated_text)
     = normalize_message ascii_only repeated_text.
Proof.
  assert (H1 : matched_rule (substituted ascii_only repeated_text) = None)
    by (vm_compute; reflexivity).
  assert (H2 : 140 < length (substituted ascii_only repeated_text))
    by (vm_compute; lia).
  destruct (C2_truncation_and_second_application ascii_only repeated_text H1 H2)
    as [Ha Hb].
  split; [exact Ha|]. apply Hb. vm_compute. reflexivity.
Defined.

End NormalizerFacts.

(** ** TimeWindowResolver *)

Module RelTimeFacts.
Import Unicode Regex Py PyTime RelTime StrFacts RegexFacts.
#[local] Open Scope py_scope.

Section WithTable.
Variable T : table.

Lemma run_Cat (A : Type) r1 r2 c g (k : cursor -> groups -> option A) :
  run T (Cat r1 r2) c g k = run T r1 c g (fun c' g' => run T r2 c' g' k).
Proof. reflexivity. Qed.

Lemma run_Group (A : Type) i r c g (k : cursor -> groups -> option A) :
  run T (Group i r) c g k
  = run T r c g (fun c' g' => k c' ((i, consumed c c') :: g')).
Proof. reflexivity. Qed.

Lemma run_Eps (A : Type) c g (k : cursor -> groups -> option A) :
  run T Eps c g k = k c g.
Proof. reflexivity. Qed.

Lemma consumed_app xs rest b b' :
  consumed (Cursor b (xs ++ rest)) (Cursor b' rest) = xs.
Proof.
  unfold consumed. simpl. rewrite length_app, Nat.add_sub.
  rewrite firstn_app, firstn_all, Nat.sub_diag. simpl. apply app_nil_r.
Qed.

Lemma is_unit_cases u :
  is_unit u = true -> u = 119%N \/ u = 100%N \/ u = 104%N \/ u = 109%N \/ u = 115%N.
Proof.
  unfold is_unit.
  change (py "wdhms") with [119; 100; 104; 109; 115]%N. cbn [existsb].
  rewrite !orb_true_iff, !char_eqb_eq. intuition congruence.
Qed.

Lemma ascii_digit_decimal x : ascii_digit x = true -> isdecimal T x = true.
Proof.
  intros H. unfold isdecimal, decimal. rewrite H.
  unfold ascii_digit, in_range in H. apply andb_true_iff in H as [_ H].
  apply N.leb_le in H.
  replace (is_ascii x) with true; [reflexivity|].
  symmetry. apply N.ltb_lt. lia.
Qed.

Lemma unit_not_decimal u : is_unit u = true -> isdecimal T u = false.
Proof. intros H. apply is_unit_cases in H. intuition (subst; reflexivity). Qed.

Lemma unit_not_space u : is_unit u = true -> isspace T u = false.
Proof. intros H. apply is_unit_cases in H. intuition (subst; reflexivity). Qed.

(** At the start of a well-formed token, [TOKEN_RE] matches exactly it. *)
Lemma match_at_token (t : token) (b rest : str) :
  wf_token t ->
  match_at T (TOKEN_RE T) (Cursor b (fst t ++ snd t :: rest))
  = Some (Cursor (snd t :: rev (fst t) ++ b) rest, token_groups t).
Proof.
  destruct t as [ds u]. unfold wf_token. simpl fst; simpl snd.
  intros (Hne & Hds & Hu). destruct ds as [|x ds]; [congruence|].
  simpl in Hds. apply andb_true_iff in Hds as [Hx Hds].
  rewrite forallb_forall in Hds.
  unfold match_at, TOKEN_RE. cbn [cat fold_right]. unfold Plus, AtLeast.
  cbn [Rep]. rewrite run_Cat, run_Group, run_Cat, run_Cat.
  cbn [app]. unfold cls_d at 1. rewrite run_Cls_cons, (ascii_digit_decimal x Hx).
  rewrite run_Eps.
  apply run_star_cls_greedy with (xs := ds) (rest := u :: rest).
  - apply Forall_forall. intros y Hy. apply ascii_digit_decimal, Hds, Hy.
  - apply unit_not_decimal, Hu.
  - rewrite run_Cat.
    apply run_star_cls_greedy with (xs := []) (rest := u :: rest).
    + constructor.
    + apply unit_not_space, Hu.
    + rewrite run_Cat, run_Group. unfold one_of. rewrite run_Cls_cons.
      fold (is_unit u). rewrite Hu, run_Eps. cbn [ahead rev app].
      replace (length rest <? length (x :: ds ++ u :: rest)) with true
        by (symmetry; apply Nat.ltb_lt; simpl; rewrite length_app; simpl; lia).
      unfold token_groups. simpl fst; simpl snd.
      change (x :: ds ++ u :: rest) with ((x :: ds) ++ u :: rest).
      rewrite (consumed_app (x :: ds) (u :: rest)).
      change (u :: rest) with ([u] ++ rest).
      rewrite (consumed_app [u] rest).
      simpl. rewrite <- app_assoc. reflexivity.
Qed.

Lemma match_at_end b : match_at T (TOKEN_RE T) (Cursor b []) = None.
Proof. reflexivity. Qed.

Lemma finditer_from_render (l : list token) :
  Forall wf_token l ->
  forall b fuel, length (render l) < fuel ->
    finditer_from T (TOKEN_RE T) fuel (Cursor b (render l)) = map token_groups l.
Proof.
  induction 1 as [|t l Ht Hl IH]; intros b fuel Hf.
  - destruct fuel; [simpl in Hf; lia|]. reflexivity.
  - destruct fuel; [lia|].
    unfold render in *. cbn [map concat] in *. rewrite <- app_assoc in *.
    cbn [app] in *. cbn [finditer_from].
    rewrite (match_at_token b _ Ht). cbn [map]. f_equal.
    apply IH. rewrite length_app in Hf. simpl in Hf. lia.
Qed.

Lemma finditer_render (l : list token) :
  Forall wf_token l ->
  finditer T (TOKEN_RE T) (render l) = map token_groups l.
Proof. intros H. apply finditer_from_render; auto. Qed.

End WithTable.

Lemma td_check_nonneg (x : Z) :
  (0 <= x)%Z ->
  td_check x = if (x <? LIMIT_US)%Z then Ok x else Raise OverflowError.
Proof.
  intros Hx. unfold td_check, td_days, LIMIT_US, MAX_DELTA_DAYS, US_PER_DAY,
    US_PER_SECOND.
  assert (D : (0 <= x / (86400 * 1000000))%Z) by (apply Z.div_pos; lia).
  destruct (x <? (999999999 + 1) * (86400 * 1000000))%Z eqn:E.
  - apply Z.ltb_lt in E.
    assert (x / (86400 * 1000000) < 999999999 + 1)%Z
      by (apply Z.div_lt_upper_bound; lia).
    replace (- (999999999) <=? x / (86400 * 1000000))%Z with true
      by (symmetry; apply Z.leb_le; lia).
    replace (x / (86400 * 1000000) <=? 999999999)%Z with true
      by (symmetry; apply Z.leb_le; lia).
    reflexivity.
  - apply Z.ltb_ge in E.
    assert (999999999 + 1 <= x / (86400 * 1000000))%Z
      by (apply Z.div_le_lower_bound; lia).
    replace (x / (86400 * 1000000) <=? 999999999)%Z with false
      by (symmetry; apply Z.leb_gt; lia).
    rewrite andb_false_r. reflexivity.
Qed.

Section WithTable.
Variable T : table.

Lemma match_us_nonneg (m : groups) : (0 <= match_us T m)%Z.
Proof.
  unfold match_us. destruct (group 2 m) as [|u [|? ?]]; try lia.
  unfold unit_us, US_PER_DAY, US_PER_SECOND.
  repeat match goal with |- context [if ?b then _ else _] => destruct b end; lia.
Qed.

Lemma sum_us_nonneg (ms : list groups) : (0 <= sum_us (map (match_us T) ms))%Z.
Proof.
  induction ms as [|m ms IH]; simpl; [lia|].
  pose proof (match_us_nonneg m). lia.
Qed.

Lemma int_within (s : str) :
  length s <= INT_MAX_STR_DIGITS ->
  int T s = Ok (Z.of_N (int_of_digits T s)).
Proof.
  intros H. unfold int. rewrite (proj2 (Nat.ltb_ge _ _) H). reflexivity.
Qed.

Lemma int_beyond (s : str) :
  INT_MAX_STR_DIGITS < length s -> int T s = Raise ValueError.
Proof.
  intros H. unfold int. rewrite (proj2 (Nat.ltb_lt _ _) H). reflexivity.
Qed.

(** A numeral beyond the limit stops the loop, whatever the unit. *)
Lemma add_token_long (total : timedelta) (m : groups) :
  too_long m = true -> add_token T total m = Raise ValueError.
Proof.
  unfold too_long. intros H. unfold add_token.
  rewrite int_beyond by (apply Nat.ltb_lt, H). reflexivity.
Qed.

Lemma add_token_cases (total : timedelta) (m : groups) :
  too_long m = false ->
  add_token T total m
    = (d <- td_check (match_us T m) ;; td_check (total + d)%Z)
  \/ (add_token T total m = Ok total /\ match_us T m = 0%Z).
Proof.
  unfold too_long. intros L. unfold add_token.
  rewrite int_within by (apply Nat.ltb_ge, L). cbn [bind].
  unfold match_us, timedelta_new, td_add.
  repeat match goal with
  | |- context [str_eqb (group 2 m) (py ?s)] =>
      let E := fresh "E" in
      destruct (str_eqb (group 2 m) (py s)) eqn:E;
      [ left; apply str_eqb_eq in E; rewrite E;
        change (py s) with [hd 0%N (py s)]; cbv beta iota;
        match goal with
        | |- (x <- td_check ?a ;; _) = (y <- td_check ?b ;; _) =>
            replace a with b
              by (vm_compute (hd 0%N (py s)); unfold unit_us; cbn [char_eqb N.eqb Pos.eqb];
                  unfold US_PER_DAY, US_PER_SECOND; lia)
        end; reflexivity
      | ]
  end.
  right. split; [reflexivity|].
  destruct (group 2 m) as [|u [|? ?]]; try reflexivity.
  unfold unit_us.
  repeat match goal with
  | H : str_eqb [u] (py ?s) = false |- _ =>
      assert (char_eqb u (hd 0%N (py s)) = false)
        by (destruct (char_eqb u (hd 0%N (py s))) eqn:C; [|reflexivity];
            apply char_eqb_eq in C; subst u; discriminate H);
      clear H
  end.
  repeat match goal with
  | H : char_eqb u (hd _ _) = false |- _ => vm_compute (hd _ _) in H; rewrite H; clear H
  end.
  lia.
Qed.

(** With every numeral within the limit of [int], the loop adds up the
    durations of the matches; the result leaves the range of [timedelta]
    exactly when the total does. *)
Lemma sum_tokens_total (ms : list groups) :
  Forall (fun m => too_long m = false) ms ->
  forall total : timedelta,
    (0 <= total < LIMIT_US)%Z ->
    sum_tokens T total ms = td_check (total + sum_us (map (match_us T) ms))%Z.
Proof.
  induction 1 as [|m ms Hm Hms IH]; intros total Ht.
  - simpl. rewrite Z.add_0_r, td_check_nonneg by lia.
    replace (total <? LIMIT_US)%Z with true by (symmetry; apply Z.ltb_lt; lia).
    reflexivity.
  - cbn [sum_tokens map sum_us fold_right].
    fold (sum_us (map (match_us T) ms)).
    pose proof (match_us_nonneg m) as Hn.
    pose proof (sum_us_nonneg ms) as Hs.
    destruct (add_token_cases total m Hm) as [-> | [-> E]].
    + rewrite (td_check_nonneg Hn).
      rewrite (td_check_nonneg (x := total + (match_us T m + _))) by lia.
      destruct (match_us T m <? LIMIT_US)%Z eqn:E1; cbn [bind].
      * rewrite (td_check_nonneg (x := total + match_us T m)) by lia.
        destruct (total + match_us T m <? LIMIT_US)%Z eqn:E2; cbn [bind].
        -- apply Z.ltb_lt in E2. rewrite IH by lia.
           rewrite td_check_nonneg by lia. rewrite Z.add_assoc. reflexivity.
        -- apply Z.ltb_ge in E2.
           replace (total + (match_us T m + sum_us (map (match_us T) ms)) <? LIMIT_US)%Z
             with false by (symmetry; apply Z.ltb_ge; lia).
           reflexivity.
      * apply Z.ltb_ge in E1.
        replace (total + (match_us T m + sum_us (map (match_us T) ms)) <? LIMIT_US)%Z
          with false by (symmetry; apply Z.ltb_ge; lia).
        reflexivity.
    + cbn [bind]. rewrite IH by lia. rewrite E. reflexivity.
Qed.

Lemma sum_tokens_app (a b : list groups) :
  forall total : timedelta,
    sum_tokens T total (a ++ b)
    = (t <- sum_tokens T total a ;; sum_tokens T t b).
Proof.
  induction a as [|m a IH]; intros total; [reflexivity|].
  cbn [app sum_tokens]. destruct (add_token T total m); cbn [bind];
    [apply IH | reflexivity].
Qed.

(** The loop stops at the first numeral beyond the limit, with [int]'s
    [ValueError], unless the total has left the range before. *)
Lemma sum_tokens_long (before after : list groups) (m : groups)
      (total : timedelta) :
  Forall (fun x => too_long x = false) before -> too_long m = true ->
  (0 <= total < LIMIT_US)%Z ->
  sum_tokens T total (before ++ m :: after)
  = if (total + sum_us (map (match_us T) before) <? LIMIT_US)%Z
    then Raise ValueError else Raise OverflowError.
Proof.
  intros F L Ht. rewrite sum_tokens_app, (@sum_tokens_total before F total Ht).
  pose proof (sum_us_nonneg before) as Hs.
  rewrite td_check_nonneg by lia.
  destruct (_ <? _)%Z; cbn [bind sum_tokens]; [|reflexivity].
  rewrite add_token_long by exact L. reflexivity.
Qed.

Lemma first_long (ms : list groups) :
  Forall (fun x => too_long x = false) ms
  \/ exists before m after,
       ms = before ++ m :: after
       /\ Forall (fun x => too_long x = false) before /\ too_long m = true.
Proof.
  induction ms as [|x ms IH]; [left; constructor|].
  destruct (too_long x) eqn:E.
  - right. exists [], x, ms. repeat split; [constructor | exact E].
  - destruct IH as [F | (b & m & a & -> & F & L)].
    + left. constructor; assumption.
    + right. exists (x :: b), m, a. repeat split; [constructor|]; assumption.
Qed.

Lemma first_long_unique (b1 b2 a1 a2 : list groups) (m1 m2 : groups) :
  b1 ++ m1 :: a1 = b2 ++ m2 :: a2 ->
  Forall (fun x => too_long x = false) b1 -> too_long m1 = true ->
  Forall (fun x => too_long x = false) b2 -> too_long m2 = true ->
  b1 = b2.
Proof.
  revert b2. induction b1 as [|x b1 IH]; intros [|y b2] E F1 L1 F2 L2;
    cbn [app] in E; injection E as E1 E2.
  - reflexivity.
  - subst y. apply Forall_inv in F2. congruence.
  - subst x. apply Forall_inv in F1. congruence.
  - subst y. f_equal.
    apply (IH b2 E2); [eapply Forall_inv_tail; eassumption | assumption
                       | eapply Forall_inv_tail; eassumption | assumption].
Qed.

(** *** [strip] and [lower] leave a rendered expression as it is *)

Lemma lstrip_id (s : str) :
  match s with [] => True | c :: _ => isspace T c = false end ->
  lstrip T s = s.
Proof. destruct s as [|c s]; simpl; [reflexivity | intros ->; reflexivity]. Qed.

Lemma strip_id (s : str) :
  Forall (fun c => isspace T c = false) s -> strip T s = s.
Proof.
  intros F. unfold strip, rstrip. rewrite (lstrip_id s).
  - rewrite lstrip_id, rev_involutive; [reflexivity|].
    apply Forall_rev in F. destruct (rev s); [exact I | inversion F; assumption].
  - destruct s; [exact I | inversion F; assumption].
Qed.

Lemma lower_id (s : str) :
  Forall (fun c => is_ascii c = true /\ ascii_upper c = false) s ->
  lower T s = s.
Proof.
  intros F. unfold lower.
  replace (forallb is_ascii s) with true.
  - induction F as [|c s [_ Hc] F IH]; simpl; [reflexivity|].
    unfold to_lower_ascii at 1. rewrite Hc, IH. reflexivity.
  - symmetry. apply forallb_forall. intros c Hc.
    rewrite Forall_forall in F. apply F, Hc.
Qed.

Lemma digit_plain c : ascii_digit c = true -> plain T c.
Proof.
  unfold ascii_digit, in_range. intros H.
  apply andb_true_iff in H as [H1 H2]. apply N.leb_le in H1, H2.
  assert (A : is_ascii c = true) by (apply N.ltb_lt; lia).
  unfold plain, isspace, ascii_space, ascii_upper, in_range. rewrite A.
  repeat split.
  - apply orb_false_iff; split; apply andb_false_iff.
    + right. apply N.leb_gt. lia.
    + right. apply N.leb_gt. lia.
  - apply andb_false_iff. left. apply N.leb_gt. lia.
Qed.

Lemma unit_plain u : is_unit u = true -> plain T u.
Proof.
  intros H. apply is_unit_cases in H.
  intuition (subst; repeat split; reflexivity).
Qed.

Lemma render_plain (l : list token) :
  Forall wf_token l -> Forall (plain T) (render l).
Proof.
  induction 1 as [|[ds u] l (Hne & Hds & Hu) Hl IH]; [constructor|].
  unfold render. cbn [map concat]. apply Forall_app. split; [|exact IH].
  apply Forall_app. split.
  - apply Forall_forall. intros c Hc. apply digit_plain.
    simpl in Hds. rewrite forallb_forall in Hds. apply Hds, Hc.
  - constructor; [apply unit_plain; exact Hu | constructor].
Qed.

Lemma render_clean (l : list token) :
  Forall wf_token l -> lower T (strip T (render l)) = render l.
Proof.
  intros H. apply render_plain in H.
  rewrite strip_id, lower_id; [reflexivity | |];
    eapply Forall_impl; try exact H; unfold plain; intuition.
Qed.

(** *** The general path of [parse_relative_delta] *)

Lemma parse_unfold (expr : str) :
  parse_relative_delta T (Some expr)
  = if existsb (str_eqb (lower T (strip T expr))) ZERO_LITERALS
    then Ok (Some td_zero) else general T (lower T (strip T expr)).
Proof. reflexivity. Qed.

Lemma general_total (e : str) :
  Forall (fun m => too_long m = false) (finditer T (TOKEN_RE T) e) ->
  general T e = total_result (map (match_us T) (finditer T (TOKEN_RE T) e)).
Proof.
  intros F. unfold general.
  rewrite (@sum_tokens_total _ F td_zero) by (vm_compute; split; congruence).
  unfold td_zero. rewrite Z.add_0_l.
  destruct (finditer T (TOKEN_RE T) e) as [|m ms]; [reflexivity|].
  cbn [map total_result].
  destruct (td_check _); reflexivity.
Qed.

Lemma general_long (e : str) (before after : list groups) (m : groups) :
  finditer T (TOKEN_RE T) e = before ++ m :: after ->
  Forall (fun x => too_long x = false) before -> too_long m = true ->
  general T e
  = if (sum_us (map (match_us T) before) <? LIMIT_US)%Z
    then Raise ValueError else Raise OverflowError.
Proof.
  intros E F L. unfold general. rewrite E.
  rewrite (@sum_tokens_long before after m td_zero F L)
    by (vm_compute; split; congruence).
  unfold td_zero. rewrite Z.add_0_l.
  destruct (_ <? _)%Z; reflexivity.
Qed.

(** When the general path returns a duration: there is a match, every
    numeral is within the limit of [int], and the sum of the durations is
    within the range of [timedelta]. *)
Lemma general_ok (e : str) (d : timedelta) :
  general T e = Ok (Some d)
  <-> finditer T (TOKEN_RE T) e <> []
      /\ Forall (fun m => too_long m = false) (finditer T (TOKEN_RE T) e)
      /\ d = sum_us (map (match_us T) (finditer T (TOKEN_RE T) e))
      /\ (d < LIMIT_US)%Z.
Proof.
  destruct (first_long (finditer T (TOKEN_RE T) e))
    as [F | (b & m & a & E & F & L)].
  - rewrite (@general_total e F).
    pose proof (sum_us_nonneg (finditer T (TOKEN_RE T) e)) as Hs.
    destruct (finditer T (TOKEN_RE T) e) as [|x ms].
    + split; [discriminate | intros [H _]; congruence].
    + unfold total_result. rewrite td_check_nonneg by exact Hs.
      destruct (_ <? _)%Z eqn:C; cbn [bind].
      * apply Z.ltb_lt in C. split.
        -- intros H. injection H as <-.
           repeat split; [discriminate | exact F | exact C].
        -- intros (_ & _ & -> & _). reflexivity.
      * apply Z.ltb_ge in C. split; [discriminate|].
        intros (_ & _ & -> & H). lia.
  - rewrite (@general_long e b a m E F L). split.
    + destruct (_ <? _)%Z; discriminate.
    + intros (_ & F' & _). exfalso. rewrite E in F'.
      apply Forall_elt in F'. congruence.
Qed.

(** The general path raises [ValueError] without a match (line 105), and
    when the loop comes to a numeral that [int] refuses (line 92). *)
Lemma general_value_error (e : str) :
  general T e = Raise ValueError
  <-> finditer T (TOKEN_RE T) e = []
      \/ reaches_long_numeral T (finditer T (TOKEN_RE T) e).
Proof.
  destruct (first_long (finditer T (TOKEN_RE T) e))
    as [F | (b & m & a & E & F & L)].
  - rewrite (@general_total e F). split.
    + destruct (finditer T (TOKEN_RE T) e) as [|x ms]; [left; reflexivity|].
      unfold total_result. unfold td_check.
      destruct (_ && _); cbn [bind]; discriminate.
    + intros [-> | (b & m & a & E & _ & L & _)]; [reflexivity|].
      exfalso. rewrite E in F. apply Forall_elt in F. congruence.
  - rewrite (@general_long e b a m E F L). split.
    + destruct (_ <? _)%Z eqn:C; [|discriminate].
      intros _. right. exists b, m, a. apply Z.ltb_lt in C. auto.
    + intros [N | (b' & m' & a' & E' & F' & L' & S')].
      * rewrite N in E. destruct b; discriminate.
      * rewrite E in E'.
        rewrite (@first_long_unique b b' a a' m m' E' F L F' L').
        apply Z.ltb_lt in S'. rewrite S'. reflexivity.
Qed.

Lemma zero_literal_cases (e : str) :
  existsb (str_eqb e) ZERO_LITERALS = true ->
  e = py "now" \/ e = py "0" \/ e = py "0h" \/ e = py "0m" \/ e = py "0s".
Proof.
  unfold ZERO_LITERALS. cbn [existsb].
  rewrite !orb_true_iff, !str_eqb_eq. intuition congruence.
Qed.

(** An expression written from tokens goes the general path, or gives
    what the general path would give. *)
Lemma parse_render (l : list token) :
  Forall wf_token l ->
  parse_relative_delta T (Some (render l)) = general T (render l).
Proof.
  intros H. rewrite parse_unfold, (render_clean H).
  destruct (existsb _ _) eqn:Z; [|reflexivity].
  pose proof (finditer_render T H) as F.
  apply zero_literal_cases in Z as [Z | [Z | [Z | [Z | Z]]]];
    rewrite Z in *; try (vm_compute; reflexivity);
    exfalso; vm_compute in F; destruct l; try discriminate F;
    vm_compute in Z; discriminate Z.
Qed.

Lemma token_groups_us (l : list token) :
  map (match_us T) (map token_groups l) = map (token_us T) l.
Proof. rewrite map_map. reflexivity. Qed.

(** An expression written from tokens, one of them with a numeral beyond
    the limit of [int]: the loop stops there, or before with a total out
    of range. *)
Lemma parse_render_long (before after : list token) (t : token) :
  Forall wf_token (before ++ t :: after) ->
  Forall (fun x => length (fst x) <= INT_MAX_STR_DIGITS) before ->
  INT_MAX_STR_DIGITS < length (fst t) ->
  parse_relative_delta T (Some (render (before ++ t :: after)))
  = if (sum_us (map (token_us T) before) <? LIMIT_US)%Z
    then Raise ValueError else Raise OverflowError.
Proof.
  intros W F L. rewrite (parse_render W).
  rewrite (@general_long (render (before ++ t :: after))
             (map token_groups before) (map token_groups after)
             (token_groups t)).
  - rewrite token_groups_us. reflexivity.
  - rewrite (finditer_render T W), map_app. reflexivity.
  - apply Forall_map. revert F. apply Forall_impl. intros x Hx.
    apply Nat.ltb_ge. exact Hx.
  - apply Nat.ltb_lt. exact L.
Qed.

Lemma digit_then_unit_token (ds : str) (u : char) (rest : str) :
  ds <> [] -> Forall (fun c => isdecimal T c = true) ds -> is_unit u = true ->
  digit_then_unit T (ds ++ u :: rest) = true.
Proof.
  intros N F U. induction F as [|x ds Hx F IH]; [congruence|].
  destruct ds as [|y ds].
  - cbn [app digit_then_unit]. rewrite Hx, U. reflexivity.
  - change (digit_then_unit T ((x :: y :: ds) ++ u :: rest))
      with ((isdecimal T x && is_unit y)
            || digit_then_unit T ((y :: ds) ++ u :: rest)).
    rewrite IH by discriminate. apply orb_true_r.
Qed.

(** A numeral of more than 4300 digits directly followed by a unit letter:
    a token as plain as can be, which [int] refuses. *)
Lemma long_numeral_refused (ds : str) (u : char) :
  wf_token (ds, u) -> INT_MAX_STR_DIGITS < length ds ->
  digit_then_unit T (lower T (strip T (render [(ds, u)]))) = true
  /\ parse_relative_delta T (Some (render [(ds, u)])) = Raise ValueError.
Proof.
  intros W L.
  assert (F : Forall wf_token [(ds, u)])
    by (constructor; [exact W | constructor]).
  split.
  - rewrite (render_clean F). unfold render. cbn [map concat app fst snd].
    rewrite app_nil_r. destruct W as (N & D & U). cbn [fst snd] in N, D, U.
    apply digit_then_unit_token; [exact N | | exact U].
    apply Forall_forall. intros c Hc. apply ascii_digit_decimal.
    rewrite forallb_forall in D. apply D, Hc.
  - exact (@parse_render_long [] [] (ds, u) F (Forall_nil _) L).
Qed.

(** A parsed duration is never negative, the pattern having no sign, and
    it is within the range of [timedelta]. *)
Lemma parse_relative_delta_nonneg (expr : str) (d : timedelta) :
  parse_relative_delta T (Some expr) = Ok (Some d) -> (0 <= d < LIMIT_US)%Z.
Proof.
  rewrite parse_unfold. destruct (existsb _ _).
  - intros H. injection H as <-. vm_compute. split; congruence.
  - intros H. apply general_ok in H as (_ & _ & -> & H).
    split; [apply sum_us_nonneg | exact H].
Qed.

(** The exceptions of [parse_relative_delta]: [ValueError], from line 105
    or from [int], and the [OverflowError] of [timedelta]. *)
Lemma parse_relative_delta_raises (expr : str) (x : exn) :
  parse_relative_delta T (Some expr) = Raise x ->
  x = ValueError \/ x = OverflowError.
Proof.
  rewrite parse_unfold. destruct (existsb _ _); [discriminate|].
  set (e := lower T (strip T expr)). clearbody e.
  destruct (first_long (finditer T (TOKEN_RE T) e))
    as [F | (b & m & a & E & F & L)].
  - rewrite (@general_total e F).
    destruct (finditer T (TOKEN_RE T) e) as [|g ms].
    + intros H. injection H as <-. left. reflexivity.
    + unfold total_result, td_check. destruct (_ && _); cbn [bind];
        [discriminate|]. intros H. injection H as <-. right. reflexivity.
  - rewrite (@general_long e b a m E F L).
    destruct (_ <? _)%Z; intros H; injection H as <-; auto.
Qed.

(** Given an expression, [parse_relative_delta] does not return [None]. *)
Lemma parse_relative_delta_some (expr : str) :
  parse_relative_delta T (Some expr) <> Ok None.
Proof.
  rewrite parse_unfold. destruct (existsb _ _); [discriminate|].
  unfold general. destruct (sum_tokens _ _ _); cbn [bind]; [|discriminate].
  destruct (finditer _ _ _); discriminate.
Qed.

Lemma sum_us_perm (a b : list Z) : Permutation a b -> sum_us a = sum_us b.
Proof. induction 1; simpl; lia. Qed.

End WithTable.

(** C3. Two expressions made of the same tokens in different orders: when
    one of them is valid, that is parses to a duration, the other parses to
    the same duration, which is the plain sum of the durations of the
    tokens, each counted as often as it occurs. *)
Theorem C3_token_order_does_not_matter
        (T : table) (l l' : list token) (d : timedelta) :
  Forall wf_token l -> Permutation l l' ->
  parse_relative_delta T (Some (render l)) = Ok (Some d) ->
  parse_relative_delta T (Some (render l')) = Ok (Some d)
  /\ d = sum_us (map (token_us T) l).
Proof.
  intros H P E.
  assert (H' : Forall wf_token l') by (eapply Permutation_Forall; eassumption).
  rewrite parse_render in E |- * by assumption.
  apply general_ok in E as (N & F & -> & R).
  rewrite (finditer_render T H) in N, F, R |- *.
  rewrite token_groups_us in R |- *.
  split; [|reflexivity].
  apply general_ok. rewrite (finditer_render T H'), token_groups_us.
  assert (Q : Permutation (map token_groups l) (map token_groups l'))
    by (apply Permutation_map, P).
  repeat split.
  - intros Z. rewrite Z in Q. apply Permutation_sym, Permutation_nil in Q.
    exact (N Q).
  - eapply Permutation_Forall; eassumption.
  - apply sum_us_perm, Permutation_map, P.
  - exact R.
Qed.

Lemma C3_witness :
  parse_relative_delta ascii_only (Some (py "2h1d"))
  = Ok (Some (26 * 3600 * US_PER_SECOND)%Z)
  /\ (26 * 3600 * US_PER_SECOND)%Z
     = sum_us (map (token_us ascii_only) [(py "1", 100%N); (py "2", 104%N)]).
Proof.
  apply (@C3_token_order_does_not_matter
           ascii_only
           [(py "1", 100%N); (py "2", 104%N)]
           [(py "2", 104%N); (py "1", 100%N)]).
  - repeat constructor; discriminate.
  - apply perm_swap.
  - vm_compute. reflexivity.
Defined.


Section WithTable.
Variable T : table.

(** [TOKEN_RE] matches at a position exactly when a token starts there. *)
Lemma token_Matches b ds ws u post :
  ds <> [] -> Forall (fun c => isdecimal T c = true) ds ->
  Forall (fun c => isspace T c = true) ws -> is_unit u = true ->
  Matches T (TOKEN_RE T) (Cursor b (ds ++ ws ++ u :: post))
          (Cursor (u :: rev ws ++ rev ds ++ b) post).
Proof.
  intros Hne Hds Hws Hu. unfold TOKEN_RE. cbn [cat fold_right].
  eapply M_Cat; [apply M_Group, Matches_plus_cls; eassumption|].
  eapply M_Cat; [apply Matches_star_cls; eassumption|].
  eapply M_Cat; [apply M_Group; constructor; exact Hu | constructor].
Qed.

Lemma token_Matches_inv c c' :
  Matches T (TOKEN_RE T) c c' ->
  exists ds ws u,
    ahead c = ds ++ ws ++ u :: ahead c'
    /\ ds <> [] /\ Forall (fun c => isdecimal T c = true) ds
    /\ Forall (fun c => isspace T c = true) ws /\ is_unit u = true.
Proof.
  unfold TOKEN_RE. cbn [cat fold_right]. intros M.
  inversion M as [| |? ? ? c1 ? M1 M2| | | | | | | |]; subst; clear M.
  inversion M1 as [| | | | | | | | | |? ? ? ? M1']; subst; clear M1.
  inversion M2 as [| |? ? ? c2 ? M3 M4| | | | | | | |]; subst; clear M2.
  inversion M4 as [| |? ? ? c3 ? M5 M6| | | | | | | |]; subst; clear M4.
  inversion M5 as [| | | | | | | | | |? ? ? ? M5']; subst; clear M5.
  inversion M6; subst; clear M6.
  apply Matches_plus_cls_inv in M1' as (ds & Hne & Hds & Ha & _).
  apply Matches_star_cls_inv in M3 as (ws & Hws & Hb & _).
  apply Matches_cls_inv in M5' as (u & Hu & Hc & _).
  exists ds, ws, u. rewrite Ha, Hb, Hc. auto.
Qed.

Lemma finditer_has_token (e : str) :
  finditer T (TOKEN_RE T) e <> [] <-> has_token T e.
Proof.
  split.
  - intros H. apply finditer_from_nonempty in H as (c1 & (sk & Ha & Hb) & Hm).
    destruct (match_at T (TOKEN_RE T) c1) as [[c' g]|] eqn:E; [|congruence].
    unfold match_at in E. apply run_sound in E as (c2 & g2 & M & _).
    apply token_Matches_inv in M as (ds & ws & u & Hc & Hne & Hds & Hws & Hu).
    exists sk, ds, ws, u, (ahead c2). simpl in Ha. rewrite Ha, Hc. auto.
  - intros (pre & ds & ws & u & post & -> & Hne & Hds & Hws & Hu).
    apply finditer_from_finds
      with (c1 := Cursor (rev pre) (ds ++ ws ++ u :: post)).
    + exists pre. simpl. rewrite app_nil_r. auto.
    + unfold match_at. eapply run_complete.
      * apply token_Matches; eassumption.
      * intros g'. cbn [ahead].
        replace (length post <? length (ds ++ ws ++ u :: post)) with true;
          [discriminate|].
        symmetry. apply Nat.ltb_lt. rewrite !length_app. simpl. lia.
    + simpl. lia.
Qed.

End WithTable.

(** C10, as amended.  [parse_relative_delta] raises [ValueError] exactly
    when the lowered, stripped text is no zero literal and either holds no
    token (digits, white space or none, a unit letter), which is the
    invalid-expression error of line 105, or holds a numeral of more than
    4300 digits that the loop comes to before the total has left the range
    of [timedelta], which is the error of [int] in line 92.  With a token
    in it and every numeral within that limit, the text parses to the sum
    of the durations of the matches, whatever else it holds, as long as
    that sum stays below 1000000000 days; beyond, the addition raises
    [OverflowError].  With a numeral over the limit it never parses. *)
Theorem C10_invalid_expression_exactly_without_token (T : table) (expr : str) :
  let e := lower T (strip T expr) in
  let ms := finditer T (TOKEN_RE T) e in
  let total := sum_us (map (match_us T) ms) in
  (parse_relative_delta T (Some expr) = Raise ValueError
   <-> existsb (str_eqb e) ZERO_LITERALS = false
       /\ (~ has_token T e \/ reaches_long_numeral T ms))
  /\ (existsb (str_eqb e) ZERO_LITERALS = true ->
      parse_relative_delta T (Some expr) = Ok (Some td_zero))
  /\ (existsb (str_eqb e) ZERO_LITERALS = false -> has_token T e ->
      Forall (fun m => length (group 1 m) <= INT_MAX_STR_DIGITS) ms ->
      parse_relative_delta T (Some expr)
      = if (total <? LIMIT_US)%Z then Ok (Some total) else Raise OverflowError)
  /\ (existsb (str_eqb e) ZERO_LITERALS = false ->
      ~ Forall (fun m => length (group 1 m) <= INT_MAX_STR_DIGITS) ms ->
      parse_relative_delta T (Some expr) = Raise ValueError
      \/ parse_relative_delta T (Some expr) = Raise OverflowError)
  /\ parse_relative_delta T (Some (py "1dxyz")) = Ok (Some US_PER_DAY)
  /\ parse_relative_delta T (Some (py "5x3h"))
     = Ok (Some (3 * 3600 * US_PER_SECOND)%Z).
Proof.
  intros e ms total. rewrite parse_unfold. fold e.
  subst ms total. clearbody e.
  assert (W : Forall (fun m => length (group 1 m) <= INT_MAX_STR_DIGITS)
                     (finditer T (TOKEN_RE T) e)
              <-> Forall (fun m => too_long m = false)
                         (finditer T (TOKEN_RE T) e)).
  { split; apply Forall_impl; intros m; unfold too_long;
      [intros H; apply Nat.ltb_ge, H | intros H; apply Nat.ltb_ge in H; exact H]. }
  split; [|split; [|split; [|split; [|split; vm_compute; reflexivity]]]].
  - destruct (existsb (str_eqb e) ZERO_LITERALS).
    + split; [discriminate | intros [? _]; discriminate].
    + rewrite general_value_error, <- finditer_has_token.
      split.
      * intros [N | R]; (split; [reflexivity|]); [left | right; exact R].
        intros H. apply H, N.
      * intros [_ [N | R]]; [left | right; exact R].
        destruct (finditer T (TOKEN_RE T) e); [reflexivity|].
        exfalso. apply N. discriminate.
  - intros ->. reflexivity.
  - intros -> H F. apply finditer_has_token in H. apply W in F.
    rewrite (@general_total T e F).
    pose proof (sum_us_nonneg T (finditer T (TOKEN_RE T) e)) as Hs.
    destruct (finditer T (TOKEN_RE T) e) as [|m ms']; [congruence|].
    unfold total_result. rewrite td_check_nonneg by exact Hs.
    destruct (_ <? _)%Z; reflexivity.
  - intros -> N.
    destruct (first_long (finditer T (TOKEN_RE T) e))
      as [F | (b & m & a & E & F & L)]; [exfalso; apply N, W, F|].
    rewrite (@general_long T e b a m E F L).
    destruct (_ <? _)%Z; [left | right]; reflexivity.
Qed.

Lemma forallb_repeat (A : Type) (p : A -> bool) (x : A) (n : nat) :
  p x = true -> forallb p (repeat x n) = true.
Proof. intros H. induction n as [|n IH]; [reflexivity|]. simpl. rewrite H. exact IH. Qed.

(** A token of 4301 times the digit 1 and the unit [d]. *)
Lemma long_token_wf : wf_token (repeat 49%N 4301, 100%N).
Proof.
  split; [|split].
  - cbn [fst]. intros E. apply (f_equal (@length _)) in E.
    rewrite repeat_length in E. discriminate E.
  - apply forallb_repeat. reflexivity.
  - reflexivity.
Qed.

Lemma long_token_length :
  INT_MAX_STR_DIGITS < length (fst (repeat 49%N 4301, 100%N)).
Proof.
  cbn [fst]. rewrite repeat_length. apply Nat.ltb_lt. vm_compute. reflexivity.
Qed.

Lemma long_token_text :
  render [(repeat 49%N 4301, 100%N)] = repeat 49%N 4301 ++ py "d".
Proof. unfold render. cbn [map concat fst snd]. apply app_nil_r. Qed.

(** C10, as stated, fails three times.  White space may stand between the
    digits and the unit, so ["5 h"], where no digit is directly followed
    by a unit letter, is not refused; ["1000000000d"] holds a token and
    yet does not succeed; nor does the token of 4301 times the digit 1 and
    the unit [d], at which [int] raises [ValueError]. *)
Lemma C10_spaced_token_and_overflow :
  (existsb (str_eqb (lower ascii_only (strip ascii_only (py "5 h"))))
           ZERO_LITERALS = false
   /\ digit_then_unit ascii_only (lower ascii_only (strip ascii_only (py "5 h")))
      = false
   /\ parse_relative_delta ascii_only (Some (py "5 h"))
      = Ok (Some (5 * 3600 * US_PER_SECOND)%Z))
  /\ (digit_then_unit ascii_only
        (lower ascii_only (strip ascii_only (py "1000000000d"))) = true
      /\ parse_relative_delta ascii_only (Some (py "1000000000d"))
         = Raise OverflowError)
  /\ (digit_then_unit ascii_only
        (lower ascii_only (strip ascii_only (repeat 49%N 4301 ++ py "d")))
      = true
      /\ parse_relative_delta ascii_only (Some (repeat 49%N 4301 ++ py "d"))
         = Raise ValueError).
Proof.
  split; [vm_compute; repeat split; reflexivity|].
  split; [vm_compute; split; reflexivity|].
  rewrite <- long_token_text.
  exact (@long_numeral_refused ascii_only _ _ long_token_wf long_token_length).
Qed.

(** The order of the tokens can decide which exception is raised: with a
    numeral of 4301 digits and a duration out of range, the loop stops at
    whichever comes first. *)
Lemma order_decides_the_exception (T : table) :
  parse_relative_delta T
    (Some (repeat 49%N 4301 ++ py "d" ++ py "1000000000d"))
  = Raise ValueError
  /\ parse_relative_delta T
       (Some (py "1000000000d" ++ repeat 49%N 4301 ++ py "d"))
     = Raise OverflowError.
Proof.
  assert (B : wf_token (py "1000000000", 100%N))
    by (repeat split; discriminate).
  replace (repeat 49%N 4301 ++ py "d" ++ py "1000000000d")
    with (render [(repeat 49%N 4301, 100%N); (py "1000000000", 100%N)])
    by (unfold render; cbn [map concat fst snd];
        rewrite app_nil_r, <- app_assoc; reflexivity).
  replace (py "1000000000d" ++ repeat 49%N 4301 ++ py "d")
    with (render [(py "1000000000", 100%N); (repeat 49%N 4301, 100%N)])
    by (unfold render; cbn [map concat fst snd];
        rewrite app_nil_r, <- app_assoc; reflexivity).
  split.
  - apply (@parse_render_long T [] [(py "1000000000", 100%N)]
             (repeat 49%N 4301, 100%N)).
    + apply Forall_cons; [apply long_token_wf|].
      apply Forall_cons; [exact B | apply Forall_nil].
    + apply Forall_nil.
    + exact long_token_length.
  - apply (@parse_render_long T [(py "1000000000", 100%N)] []
             (repeat 49%N 4301, 100%N)).
    + apply Forall_cons; [exact B|].
      apply Forall_cons; [apply long_token_wf | apply Forall_nil].
    + apply Forall_cons; [|apply Forall_nil].
      cbn [fst]. apply Nat.ltb_ge. vm_compute. reflexivity.
    + exact long_token_length.
Qed.

End RelTimeFacts.

(** ** The calendar: [datetime] arithmetic and comparison *)

Module CalendarFacts.
Import Py PyTime.
#[local] Open Scope Z_scope.

(** A property of the integers below a bound, checked by running it. *)
Lemma forallb_below (P : Z -> bool) (n : nat) :
  forallb P (map Z.of_nat (seq 0 n)) = true ->
  forall r, 0 <= r < Z.of_nat n -> P r = true.
Proof.
  intros H r Hr. rewrite forallb_forall in H. apply H.
  apply in_map_iff. exists (Z.to_nat r). split; [lia|].
  apply in_seq. lia.
Qed.

(** The month and the day that [ord2ymd] finds from the day of the year. *)
Lemma month_day_spec (leapyear : bool) (r : Z) :
  0 <= r < 365 ->
  1 <= fst (month_day leapyear r) <= 12
  /\ 1 <= snd (month_day leapyear r)
          <= month_length leapyear (fst (month_day leapyear r))
  /\ month_start leapyear (fst (month_day leapyear r))
     + snd (month_day leapyear r) = r + 1.
Proof.
  intros Hr.
  pose (P := fun r =>
          let md := month_day leapyear r in
          (1 <=? fst md) && (fst md <=? 12) && (1 <=? snd md)
          && (snd md <=? month_length leapyear (fst md))
          && (month_start leapyear (fst md) + snd md =? r + 1)).
  assert (H : P r = true).
  { apply (@forallb_below P 365); [|exact Hr].
    destruct leapyear; vm_compute; reflexivity. }
  unfold P in H. cbv zeta in H.
  rewrite !andb_true_iff, !Z.leb_le, Z.eqb_eq in H. tauto.
Qed.

Lemma ord2ymd_unfold (n : Z) :
  ord2ymd n
  = let n0 := n - 1 in
    let n400 := n0 / 146097 in
    let r400 := n0 mod 146097 in
    let n100 := r400 / 36524 in
    let r100 := r400 mod 36524 in
    let n4 := r100 / 1461 in
    let r4 := r100 mod 1461 in
    let n1 := r4 / 365 in
    let r1 := r4 mod 365 in
    let y := n400 * 400 + 1 + n100 * 100 + n4 * 4 + n1 in
    if (n1 =? 4) || (n100 =? 4) then (y - 1, 12, 31)
    else
      let md := month_day ((n1 =? 3) && (negb (n4 =? 24) || (n100 =? 3))) r1 in
      (y, fst md, snd md).
Proof.
  unfold ord2ymd, month_day, month_start, month_length. cbv zeta.
  destruct (_ || _); [reflexivity|].
  destruct (_ <? _); reflexivity.
Qed.

Lemma is_leap_cycle (n400 n100 n4 n1 : Z) :
  0 <= n100 <= 3 -> 0 <= n4 <= 24 -> 0 <= n1 <= 3 ->
  is_leap (n400 * 400 + 1 + n100 * 100 + n4 * 4 + n1)
  = (n1 =? 3) && (negb (n4 =? 24) || (n100 =? 3)).
Proof.
  intros H100 H4 H1. unfold is_leap.
  set (y := n400 * 400 + 1 + n100 * 100 + n4 * 4 + n1).
  destruct (Z.eqb_spec (y mod 4) 0), (Z.eqb_spec (y mod 100) 0),
    (Z.eqb_spec (y mod 400) 0), (Z.eqb_spec n1 3), (Z.eqb_spec n4 24),
    (Z.eqb_spec n100 3); cbn [andb orb negb]; try reflexivity;
    exfalso; subst y; Z.div_mod_to_equations; lia.
Qed.

Lemma days_before_year_cycle (n400 n100 n4 n1 : Z) :
  0 <= n100 <= 3 -> 0 <= n4 <= 24 -> 0 <= n1 <= 3 ->
  days_before_year (n400 * 400 + 1 + n100 * 100 + n4 * 4 + n1)
  = n400 * 146097 + n100 * 36524 + n4 * 1461 + n1 * 365.
Proof.
  intros H100 H4 H1. unfold days_before_year. cbv zeta.
  Z.div_mod_to_equations. lia.
Qed.

Lemma days_in_month_flag (y m : Z) :
  days_in_month y m = month_length (is_leap y) m.
Proof. reflexivity. Qed.

Lemma days_before_month_flag (y m : Z) :
  days_before_month y m = month_start (is_leap y) m.
Proof. reflexivity. Qed.

(** [ord2ymd] is the inverse of [ymd2ord]: the day with ordinal [n] is a
    date of the calendar, in years 1 to 9999, and its ordinal is [n]. *)
Lemma ord2ymd_spec (n : Z) :
  1 <= n <= MAXORDINAL ->
  1 <= fst (fst (ord2ymd n)) <= 9999
  /\ 1 <= snd (fst (ord2ymd n)) <= 12
  /\ 1 <= snd (ord2ymd n)
          <= days_in_month (fst (fst (ord2ymd n))) (snd (fst (ord2ymd n)))
  /\ ymd2ord (fst (fst (ord2ymd n))) (snd (fst (ord2ymd n))) (snd (ord2ymd n))
     = n.
Proof.
  unfold MAXORDINAL. intros Hn. rewrite ord2ymd_unfold. cbv zeta.
  pose proof (Z.div_mod (n - 1) 146097 ltac:(lia)) as E400.
  pose proof (Z.mod_pos_bound (n - 1) 146097 ltac:(lia)) as B400.
  set (n400 := (n - 1) / 146097) in *.
  set (r400 := (n - 1) mod 146097) in *.
  pose proof (Z.div_mod r400 36524 ltac:(lia)) as E100.
  pose proof (Z.mod_pos_bound r400 36524 ltac:(lia)) as B100.
  set (n100 := r400 / 36524) in *.
  set (r100 := r400 mod 36524) in *.
  pose proof (Z.div_mod r100 1461 ltac:(lia)) as E4.
  pose proof (Z.mod_pos_bound r100 1461 ltac:(lia)) as B4.
  set (n4 := r100 / 1461) in *.
  set (r4 := r100 mod 1461) in *.
  pose proof (Z.div_mod r4 365 ltac:(lia)) as E1.
  pose proof (Z.mod_pos_bound r4 365 ltac:(lia)) as B1.
  set (n1 := r4 / 365) in *.
  set (r1 := r4 mod 365) in *.
  clearbody n400 r400 n100 r100 n4 r4 n1 r1.
  assert (N400 : 0 <= n400 <= 24) by lia.
  assert (N100 : 0 <= n100 <= 4) by lia.
  assert (N4 : 0 <= n4 <= 24) by lia.
  assert (N1 : 0 <= n1 <= 4) by lia.
  destruct (Z.eqb_spec n1 4) as [S1|S1];
    [|destruct (Z.eqb_spec n100 4) as [S100|S100]]; cbn [orb fst snd].
  - assert (L : is_leap (n400 * 400 + 1 + n100 * 100 + n4 * 4 + n1 - 1) = true).
    { unfold is_leap. apply andb_true_iff. split.
      - apply Z.eqb_eq. Z.div_mod_to_equations. lia.
      - apply orb_true_iff. left. apply negb_true_iff, Z.eqb_neq.
        Z.div_mod_to_equations. lia. }
    unfold ymd2ord. rewrite days_in_month_flag, days_before_month_flag, L.
    change (month_length true 12) with 31.
    change (month_start true 12) with 335.
    unfold days_before_year. cbv zeta.
    repeat split; try lia; Z.div_mod_to_equations; lia.
  - assert (L : is_leap (n400 * 400 + 1 + n100 * 100 + n4 * 4 + n1 - 1) = true).
    { unfold is_leap. apply andb_true_iff. split.
      - apply Z.eqb_eq. Z.div_mod_to_equations. lia.
      - apply orb_true_iff. right. apply Z.eqb_eq.
        Z.div_mod_to_equations. lia. }
    unfold ymd2ord. rewrite days_in_month_flag, days_before_month_flag, L.
    change (month_length true 12) with 31.
    change (month_start true 12) with 335.
    unfold days_before_year. cbv zeta.
    repeat split; try lia; Z.div_mod_to_equations; lia.
  - rewrite <- (@is_leap_cycle n400 n100 n4 n1) by lia.
    set (y := n400 * 400 + 1 + n100 * 100 + n4 * 4 + n1).
    destruct (@month_day_spec (is_leap y) r1 B1) as (M1 & M2 & M3).
    unfold ymd2ord. rewrite days_in_month_flag, days_before_month_flag.
    pose proof (@days_before_year_cycle n400 n100 n4 n1
                  ltac:(lia) ltac:(lia) ltac:(lia)) as D.
    fold y in D. rewrite D.
    repeat split; try lia; unfold y; lia.
Qed.

(** *** The ordinal grows with the date *)

Lemma days_before_year_succ (y : Z) :
  days_before_year (y + 1)
  = days_before_year y + 365 + (if is_leap y then 1 else 0).
Proof.
  unfold days_before_year, is_leap. cbv zeta.
  destruct (Z.eqb_spec (y mod 4) 0), (Z.eqb_spec (y mod 100) 0),
    (Z.eqb_spec (y mod 400) 0); cbn [andb orb negb];
    Z.div_mod_to_equations; lia.
Qed.

Lemma days_before_year_mono (a b : Z) :
  a <= b -> days_before_year a <= days_before_year b.
Proof.
  intros H.
  assert (G : forall k, 0 <= k -> days_before_year a <= days_before_year (a + k)).
  { apply natlike_ind.
    - rewrite Z.add_0_r. lia.
    - intros k Hk IH. unfold Z.succ.
      rewrite Z.add_assoc, days_before_year_succ.
      destruct (is_leap (a + k)); lia. }
  replace b with (a + (b - a)) by lia. apply G. lia.
Qed.

Ltac month_cases m :=
  assert (m = 1 \/ m = 2 \/ m = 3 \/ m = 4 \/ m = 5 \/ m = 6 \/ m = 7
          \/ m = 8 \/ m = 9 \/ m = 10 \/ m = 11 \/ m = 12) as month_cases_H
    by lia;
  repeat (destruct month_cases_H as [month_cases_H | month_cases_H]);
  subst m.

(** A date falls within its year. *)
Lemma day_of_year_bound (leapyear : bool) (m d : Z) :
  1 <= m <= 12 -> d <= month_length leapyear m ->
  month_start leapyear m + d <= 365 + (if leapyear then 1 else 0).
Proof.
  intros Hm Hd. month_cases m; destruct leapyear;
    vm_compute (month_length _ _) in Hd; vm_compute (month_start _ _); lia.
Qed.

(** A date falls before the start of every later month. *)
Lemma month_start_mono (leapyear : bool) (m m' d : Z) :
  1 <= m -> m < m' -> m' <= 12 -> d <= month_length leapyear m ->
  month_start leapyear m + d <= month_start leapyear m'.
Proof.
  intros H1 H2 H3 Hd. month_cases m; month_cases m'; try lia;
    destruct leapyear; vm_compute (month_length _ _) in Hd;
    repeat match goal with
    | |- context [month_start ?l ?k] =>
        let v := eval vm_compute in (month_start l k) in
        change (month_start l k) with v
    end; lia.
Qed.

Lemma month_start_nonneg (leapyear : bool) (m : Z) :
  1 <= m <= 12 -> 0 <= month_start leapyear m.
Proof.
  intros Hm. month_cases m; destruct leapyear; vm_compute; congruence.
Qed.

(** Earlier dates have smaller ordinals. *)
Lemma ymd2ord_lt (y m d y' m' d' : Z) :
  1 <= m <= 12 -> 1 <= d <= days_in_month y m ->
  1 <= m' <= 12 -> 1 <= d' <= days_in_month y' m' ->
  y < y' \/ (y = y' /\ (m < m' \/ (m = m' /\ d < d'))) ->
  ymd2ord y m d < ymd2ord y' m' d'.
Proof.
  intros Hm Hd Hm' Hd' H. unfold ymd2ord.
  rewrite !days_in_month_flag in *. rewrite !days_before_month_flag.
  destruct H as [H | [<- [H | [<- H]]]].
  - pose proof (@day_of_year_bound (is_leap y) m d Hm (proj2 Hd)).
    pose proof (@days_before_year_mono (y + 1) y' ltac:(lia)) as M.
    rewrite days_before_year_succ in M.
    pose proof (@month_start_nonneg (is_leap y') m' Hm'). lia.
  - pose proof (@month_start_mono (is_leap y) m m' d
                  ltac:(lia) H ltac:(lia) (proj2 Hd)). lia.
  - lia.
Qed.

(** *** Instants *)

Lemma valid_bounds (t : datetime) :
  valid t ->
  (1 <= year t <= 9999 /\ 1 <= month t <= 12
   /\ 1 <= day t <= days_in_month (year t) (month t))
  /\ 0 <= hour t < 24 /\ 0 <= minute t < 60 /\ 0 <= second t < 60
  /\ 0 <= microsecond t < US_PER_SECOND.
Proof.
  unfold valid, datetime_new.
  match goal with |- context [if ?c then _ else _] => destruct c eqn:C end;
    [|discriminate].
  intros _. rewrite !andb_true_iff, !Z.leb_le, !Z.ltb_lt in C. tauto.
Qed.

Lemma valid_intro (y mo d h mi s us : Z) :
  1 <= y <= 9999 -> 1 <= mo <= 12 -> 1 <= d <= days_in_month y mo ->
  0 <= h < 24 -> 0 <= mi < 60 -> 0 <= s < 60 -> 0 <= us < US_PER_SECOND ->
  valid (Datetime y mo d h mi s us).
Proof.
  intros. unfold valid, datetime_new.
  cbn [year month day hour minute second microsecond].
  match goal with |- context [if ?c then _ else _] =>
    replace c with true; [reflexivity|] end.
  symmetry. rewrite !andb_true_iff, !Z.leb_le, !Z.ltb_lt. tauto.
Qed.

Lemma to_us_time (t : datetime) :
  to_us t = ymd2ord (year t) (month t) (day t) * US_PER_DAY + time_us t.
Proof. unfold to_us, time_us. lia. Qed.

Lemma time_us_bound (t : datetime) :
  valid t -> 0 <= time_us t < US_PER_DAY.
Proof.
  intros V. apply valid_bounds in V. unfold time_us, US_PER_DAY in *.
  unfold US_PER_SECOND in *. lia.
Qed.

(** The comparison of two instants, field by field, agrees with the
    order of their distances from the start of the calendar. *)
Lemma to_us_lt (a b : datetime) :
  valid a -> valid b -> datetime_ltb a b = true -> to_us a < to_us b.
Proof.
  intros Va Vb H.
  pose proof (time_us_bound Va) as Ta. pose proof (time_us_bound Vb) as Tb.
  apply valid_bounds in Va as ((_ & Ma & Da) & Ha & Mia & Sa & Ua).
  apply valid_bounds in Vb as ((_ & Mb & Db) & Hb & Mib & Sb & Ub).
  unfold datetime_ltb, fields in H. cbn [lex_ltb] in H.
  repeat (rewrite orb_true_iff in H || rewrite andb_true_iff in H).
  rewrite !Z.ltb_lt, !Z.eqb_eq in H.
  rewrite !to_us_time.
  assert (C : ymd2ord (year a) (month a) (day a)
              < ymd2ord (year b) (month b) (day b)
              \/ (ymd2ord (year a) (month a) (day a)
                  = ymd2ord (year b) (month b) (day b)
                  /\ time_us a < time_us b)).
  { destruct H as [H | [Ey [H | [Em [H | [Ed H]]]]]].
    - left. apply ymd2ord_lt; auto.
    - left. apply ymd2ord_lt; auto.
    - left. apply ymd2ord_lt; auto.
    - right. split; [congruence|].
      unfold time_us, US_PER_SECOND in *.
      destruct H as [H | [Eh [H | [Emi [H | [Es [H | [_ H]]]]]]]];
        try discriminate H; lia. }
  unfold US_PER_DAY, US_PER_SECOND in *. lia.
Qed.

(** [datetime + timedelta], when it returns, returns an instant of the
    calendar at the requested distance. *)
Lemma datetime_add_spec (t r : datetime) (d : timedelta) :
  datetime_add t d = Ok r -> valid r /\ to_us r = to_us t + d.
Proof.
  unfold datetime_add. cbv zeta.
  set (us := to_us t + d).
  destruct ((0 <? us / US_PER_DAY) && (us / US_PER_DAY <=? MAXORDINAL)) eqn:C;
    [|discriminate].
  apply andb_true_iff in C as [C1 C2].
  apply Z.ltb_lt in C1. apply Z.leb_le in C2.
  destruct (@ord2ymd_spec (us / US_PER_DAY) ltac:(lia)) as (Y & M & D & O).
  destruct (ord2ymd (us / US_PER_DAY)) as [[y mo] dd].
  cbn [fst snd] in Y, M, D, O.
  intros H. injection H as <-. split.
  - unfold US_PER_DAY, US_PER_SECOND in *.
    apply valid_intro; try assumption; unfold US_PER_SECOND;
      Z.div_mod_to_equations; lia.
  - unfold to_us. cbn [year month day hour minute second microsecond].
    rewrite O. unfold US_PER_DAY, US_PER_SECOND in *.
    Z.div_mod_to_equations. lia.
Qed.

(** Adding a duration that is not negative does not lead back in time,
    nor does subtracting one lead forward. *)
Lemma datetime_add_later (t r : datetime) (d : timedelta) :
  valid t -> 0 <= d -> datetime_add t d = Ok r ->
  valid r /\ datetime_ltb r t = false.
Proof.
  intros V Hd H. apply datetime_add_spec in H as [Vr E].
  split; [exact Vr|].
  destruct (datetime_ltb r t) eqn:L; [|reflexivity].
  apply to_us_lt in L; [lia | assumption | assumption].
Qed.

Lemma datetime_sub_earlier (t r : datetime) (d : timedelta) :
  valid t -> 0 <= d -> datetime_sub t d = Ok r ->
  valid r /\ datetime_ltb t r = false.
Proof.
  unfold datetime_sub. intros V Hd H. apply datetime_add_spec in H as [Vr E].
  split; [exact Vr|].
  destruct (datetime_ltb t r) eqn:L; [|reflexivity].
  apply to_us_lt in L; [lia | assumption | assumption].
Qed.

(** An instant reached by going back is not after one reached by going
    forward. *)
Lemma back_not_after_forth (now s u : datetime) (d1 d2 : timedelta) :
  valid now -> 0 <= d1 -> 0 <= d2 ->
  datetime_sub now d1 = Ok s -> datetime_add now d2 = Ok u ->
  datetime_gtb s u = false.
Proof.
  unfold datetime_sub, datetime_gtb. intros V H1 H2 Hs Hu.
  apply datetime_add_spec in Hs as [Vs Es].
  apply datetime_add_spec in Hu as [Vu Eu].
  destruct (datetime_ltb u s) eqn:L; [|reflexivity].
  apply to_us_lt in L; [lia | assumption | assumption].
Qed.

End CalendarFacts.

(** ** Sorting and dictionaries *)

Module ContainerFacts.
Import Unicode Containers StrFacts.

Section SortFacts.
Variable A : Type.
Variable leb : A -> A -> bool.
Hypothesis leb_total : forall a b, leb a b = true \/ leb b a = true.
Hypothesis leb_trans : forall a b c, leb a b = true -> leb b c = true -> leb a c = true.

Lemma insert_perm (x : A) (l : list A) : Permutation (insert leb x l) (x :: l).
Proof.
  induction l as [|y l IH]; simpl; [reflexivity|].
  destruct (leb x y); [reflexivity|].
  rewrite IH. apply perm_swap.
Qed.

Lemma sort_perm (l : list A) : Permutation (sort leb l) l.
Proof.
  induction l as [|x l IH]; simpl; [reflexivity|].
  rewrite insert_perm. constructor. exact IH.
Qed.

Lemma insert_sorted (x : A) (l : list A) :
  StronglySorted (fun a b => leb a b = true) l ->
  StronglySorted (fun a b => leb a b = true) (insert leb x l).
Proof.
  induction 1 as [|y l Hl IH Hy]; simpl.
  - constructor; constructor.
  - destruct (leb x y) eqn:E.
    + constructor; [constructor; assumption|].
      constructor; [exact E|].
      rewrite Forall_forall in *. intros z Hz. eapply leb_trans; eauto.
    + constructor; [exact IH|].
      assert (Hyx : leb y x = true) by (destruct (leb_total x y); congruence).
      rewrite Forall_forall in *. intros z Hz.
      apply (Permutation_in _ (insert_perm x l)) in Hz.
      destruct Hz as [<- | Hz]; auto.
Qed.

Lemma sort_sorted (l : list A) :
  StronglySorted (fun a b => leb a b = true) (sort leb l).
Proof.
  induction l as [|x l IH]; simpl; [constructor | apply insert_sorted, IH].
Qed.

(** Stability: elements that may stand either way round keep the order
    they came in. *)
Lemma insert_filter (p : A -> bool) (x : A) (l : list A) :
  (forall a b, p a = true -> p b = true -> leb a b = true) ->
  filter p (insert leb x l) = filter p (x :: l).
Proof.
  intros Hp. induction l as [|y l IH]; [reflexivity|].
  cbn [insert]. destruct (leb x y) eqn:E; [reflexivity|].
  cbn [filter] in *. rewrite IH.
  destruct (p x) eqn:Px, (p y) eqn:Py; try reflexivity.
  rewrite (Hp x y Px Py) in E. discriminate.
Qed.

Lemma sort_stable (p : A -> bool) (l : list A) :
  (forall a b, p a = true -> p b = true -> leb a b = true) ->
  filter p (sort leb l) = filter p l.
Proof.
  intros Hp. induction l as [|x l IH]; [reflexivity|].
  cbn [sort]. rewrite (insert_filter _ _ _ Hp). cbn [filter]. rewrite IH.
  reflexivity.
Qed.

End SortFacts.

Lemma sort_nil (A : Type) (leb : A -> A -> bool) (l : list A) :
  sort leb l = [] <-> l = [].
Proof.
  split; [|intros ->; reflexivity].
  destruct l as [|x l]; [reflexivity|]. simpl.
  destruct (sort leb l); simpl; [discriminate|].
  destruct (leb x a); discriminate.
Qed.

(** *** Dictionaries *)

Section DictFacts.
Variable V : Type.

Lemma keys_update (k : str) (f : V -> V) (dflt : V) (d : dict V) :
  keys (update k f dflt d)
  = if existsb (str_eqb k) (keys d) then keys d else keys d ++ [k].
Proof.
  unfold keys. induction d as [|[k' v] d IH]; [reflexivity|].
  cbn [update]. destruct (str_eqb k' k) eqn:E.
  - apply str_eqb_eq in E. subst k'. cbn [map fst existsb].
    rewrite str_eqb_refl. reflexivity.
  - assert (E' : str_eqb k k' = false).
    { destruct (str_eqb k k') eqn:E'; [|reflexivity].
      apply str_eqb_eq in E'. subst k'. rewrite str_eqb_refl in E. discriminate. }
    cbn [map fst existsb]. rewrite E', IH. cbn [orb].
    destruct (existsb _ _); reflexivity.
Qed.

Lemma get_update (k k' : str) (f : V -> V) (dflt : V) (d : dict V) :
  get k' (update k f dflt d)
  = if str_eqb k k'
    then Some (f (match get k d with Some v => v | None => dflt end))
    else get k' d.
Proof.
  induction d as [|[k0 v] d IH]; simpl.
  - reflexivity.
  - destruct (str_eqb k0 k) eqn:E.
    + apply str_eqb_eq in E. subst k0. simpl.
      destruct (str_eqb k k'); reflexivity.
    + simpl. rewrite IH.
      destruct (str_eqb k k') eqn:E2; [|reflexivity].
      apply str_eqb_eq in E2. subst k'. rewrite E. reflexivity.
Qed.

Lemma get_In (k : str) (v : V) (d : dict V) :
  NoDup (keys d) -> In (k, v) d -> get k d = Some v.
Proof.
  induction d as [|[k0 v0] d IH]; simpl; intros N H; [contradiction|].
  inversion N; subst. destruct H as [H | H].
  - injection H as -> ->. rewrite str_eqb_refl. reflexivity.
  - destruct (str_eqb k0 k) eqn:E; [|auto].
    apply str_eqb_eq in E. subst k0. exfalso. apply H2.
    apply (in_map fst) in H. exact H.
Qed.

End DictFacts.

(** *** First occurrences *)

Lemma str_eqb_sym (a b : str) : str_eqb a b = str_eqb b a.
Proof.
  destruct (str_eqb a b) eqn:E, (str_eqb b a) eqn:E'; try reflexivity.
  - apply str_eqb_eq in E. subst. rewrite str_eqb_refl in E'. discriminate.
  - apply str_eqb_eq in E'. subst. rewrite str_eqb_refl in E. discriminate.
Qed.

Lemma existsb_str (x : str) (l : list str) :
  existsb (str_eqb x) l = true <-> In x l.
Proof.
  rewrite existsb_exists. split.
  - intros (y & Hy & E). apply str_eqb_eq in E. subst. exact Hy.
  - intros H. exists x. split; [exact H | apply str_eqb_refl].
Qed.

Lemma first_seen_In (x : str) (l : list str) : In x (first_seen l) <-> In x l.
Proof.
  induction l as [|y l IH]; simpl; [tauto|].
  rewrite filter_In, IH, negb_true_iff. split.
  - intros [-> | [H _]]; auto.
  - intros [-> | H]; [auto|].
    destruct (str_eqb x y) eqn:E; [left; symmetry; apply str_eqb_eq, E | auto].
Qed.

Lemma first_seen_NoDup (l : list str) : NoDup (first_seen l).
Proof.
  induction l as [|y l IH]; simpl; constructor.
  - rewrite filter_In, str_eqb_refl. intros [_ H]. discriminate.
  - apply NoDup_filter, IH.
Qed.

Lemma filter_twice (A : Type) (p q : A -> bool) (l : list A) :
  filter p (filter q l) = filter (fun x => q x && p x) l.
Proof.
  induction l as [|x l IH]; simpl; [reflexivity|].
  destruct (q x); simpl; [destruct (p x)|]; rewrite IH; reflexivity.
Qed.

(** Feeding records one by one to a dictionary lists their keys in the
    order of their first occurrence. *)
Lemma keys_fold (R V : Type) (key : R -> str) (f : R -> V -> V) (dflt : V)
      (l : list R) :
  forall d : dict V,
    keys (fold_left (fun d r => update (key r) (f r) dflt d) l d)
    = keys d ++ filter (fun k => negb (existsb (str_eqb k) (keys d)))
                       (first_seen (map key l)).
Proof.
  induction l as [|x l IH]; intros d; cbn [fold_left map first_seen filter].
  - rewrite app_nil_r. reflexivity.
  - rewrite IH, keys_update.
    destruct (existsb (str_eqb (key x)) (keys d)) eqn:E; cbn [negb].
    + f_equal. rewrite filter_twice. apply filter_ext. intros k.
      destruct (str_eqb k (key x)) eqn:Ex; cbn [negb andb]; [|reflexivity].
      apply str_eqb_eq in Ex. subst k. rewrite E. reflexivity.
    + rewrite <- app_assoc. cbn [app]. f_equal. f_equal.
      rewrite filter_twice. apply filter_ext. intros k.
      rewrite existsb_app. cbn [existsb]. rewrite orb_false_r, negb_orb.
      apply andb_comm.
Qed.

End ContainerFacts.

(** ** Aggregator: the summary *)

Module SummaryFacts.
Import Unicode Containers LineParser Normalizer Main StrFacts ContainerFacts.

Section WithTable.
Variable T : table.

Lemma group_families_fold (rows : list row) :
  group_families T rows = fold_left (add_row T) rows [].
Proof. reflexivity. Qed.

Lemma items_of_fold (f : str) (rows : list row) :
  forall d, items_of f (fold_left (add_row T) rows d)
            = items_of f d
              ++ filter (fun r => str_eqb (family_of T r) f) rows.
Proof.
  induction rows as [|r rows IH]; intros d; cbn [fold_left filter].
  - rewrite app_nil_r. reflexivity.
  - rewrite IH. unfold items_of, add_row. rewrite get_update.
    destruct (str_eqb (family_of T r) f) eqn:E.
    + apply str_eqb_eq in E. rewrite E, <- app_assoc. reflexivity.
    + reflexivity.
Qed.

Lemma keys_group_families (rows : list row) :
  keys (group_families T rows) = first_seen (map (family_of T) rows).
Proof.
  rewrite group_families_fold. unfold add_row.
  rewrite (keys_fold (family_of T) (fun r items => items ++ [r]) []).
  cbn [keys map app existsb negb]. apply filter_true.
Qed.

(** The entry of a family holds exactly the records of that family. *)
Lemma group_families_entries (f : str) (items : list row) (rows : list row) :
  In (f, items) (group_families T rows) ->
  items = filter (fun r => str_eqb (family_of T r) f) rows.
Proof.
  intros H. apply get_In in H.
  - pose proof (items_of_fold f rows []) as E.
    rewrite <- group_families_fold in E. unfold items_of in E at 1.
    rewrite H in E. exact E.
  - rewrite keys_group_families. apply first_seen_NoDup.
Qed.

Lemma summary_of_sort (families : dict (list row)) :
  summary_of families = sort by_count (unsorted_summary families).
Proof. reflexivity. Qed.

Lemma unsorted_families (rows : list row) :
  map family (unsorted_summary (group_families T rows))
  = first_seen (map (family_of T) rows).
Proof.
  unfold unsorted_summary. rewrite map_map. cbn [family].
  apply keys_group_families.
Qed.

Lemma unsorted_counts (rows : list row) (s : summary_row) :
  In s (unsorted_summary (group_families T rows)) ->
  count s = count_family T (family s) rows.
Proof.
  unfold unsorted_summary. rewrite in_map_iff. intros ([f items] & <- & H).
  cbn [fst snd count family]. unfold count_family.
  rewrite <- (group_families_entries _ _ _ H). reflexivity.
Qed.

Lemma StronglySorted_impl (A : Type) (R R' : A -> A -> Prop) (l : list A) :
  (forall a b, R a b -> R' a b) -> StronglySorted R l -> StronglySorted R' l.
Proof.
  intros H. induction 1 as [|a l Hl IH Ha]; constructor; [exact IH|].
  eapply Forall_impl; [|exact Ha]. intros b. apply H.
Qed.

Lemma map_filter_comm (A B : Type) (g : A -> B) (p : B -> bool) (l : list A) :
  map g (filter (fun a => p (g a)) l) = filter p (map g l).
Proof.
  induction l as [|a l IH]; simpl; [reflexivity|].
  destruct (p (g a)); simpl; rewrite IH; reflexivity.
Qed.

End WithTable.

(** C4. The summary has one entry for each distinct family, with the
    number of the records of that family; the counts descend; among
    entries of one count the families stand in the order in which they
    were first met in the records. *)
Theorem C4_summary_counts_sorted_stably (T : table) (rows : list row) :
  let summary := summary_of (group_families T rows) in
  NoDup (map family summary)
  /\ (forall f, In f (map family summary) <-> In f (map (family_of T) rows))
  /\ (forall s, In s summary -> count s = count_family T (family s) rows)
  /\ StronglySorted (fun a b => count b <= count a) summary
  /\ (forall n,
         map family (filter (fun s => count s =? n) summary)
         = filter (fun f => count_family T f rows =? n)
                  (first_seen (map (family_of T) rows))).
Proof.
  intros summary. unfold summary. rewrite summary_of_sort.
  set (U := unsorted_summary (group_families T rows)).
  pose proof (sort_perm by_count U) as P.
  pose proof (unsorted_families T rows) as K. fold U in K.
  assert (PK : Permutation (map family (sort by_count U))
                           (first_seen (map (family_of T) rows))).
  { rewrite <- K. apply Permutation_map, P. }
  repeat split.
  - eapply Permutation_NoDup; [apply Permutation_sym, PK|].
    apply first_seen_NoDup.
  - intros H. apply first_seen_In. eapply Permutation_in; eassumption.
  - intros H. apply first_seen_In in H.
    eapply Permutation_in; [apply Permutation_sym, PK | exact H].
  - intros s H. apply (unsorted_counts T rows).
    eapply Permutation_in; eassumption.
  - assert (S : StronglySorted (fun a b => by_count a b = true)
                               (sort by_count U)).
    { apply sort_sorted; unfold by_count; intros.
      - destruct (Nat.le_ge_cases (count a) (count b));
          [right | left]; apply Nat.leb_le; assumption.
      - rewrite Nat.leb_le in *. lia. }
    eapply StronglySorted_impl; [|exact S].
    unfold by_count. intros a b Hab. apply Nat.leb_le, Hab.
  - intros n. rewrite sort_stable.
    + rewrite <- K, <- map_filter_comm. f_equal.
      apply filter_ext_in. intros s Hs.
      rewrite (unsorted_counts T rows s Hs). reflexivity.
    + unfold by_count. intros a b Ha Hb.
      apply Nat.eqb_eq in Ha, Hb. apply Nat.leb_le. lia.
Qed.

End SummaryFacts.

(** ** Aggregator: the time series *)

Module SeriesFacts.
Import Unicode Py Containers LineParser Normalizer Main StrFacts
       ContainerFacts SummaryFacts.

Lemma sum_app (a b : list nat) : sum (a ++ b) = sum a + sum b.
Proof. induction a as [|x a IH]; simpl; [reflexivity | rewrite IH; lia]. Qed.

Lemma sum_perm (a b : list nat) : Permutation a b -> sum a = sum b.
Proof. induction 1; simpl; lia. Qed.

Lemma count_of_incr (k k' : str) (c : counter) :
  count_of k' (incr k c)
  = if str_eqb k k' then S (count_of k' c) else count_of k' c.
Proof.
  unfold count_of, incr. rewrite get_update.
  destruct (str_eqb k k') eqn:E; [|reflexivity].
  apply str_eqb_eq in E. subst k'. reflexivity.
Qed.

Lemma total_incr (k : str) (c : counter) : total (incr k c) = S (total c).
Proof.
  unfold total, incr. induction c as [|[k' n] c IH]; [reflexivity|].
  cbn [update]. destruct (str_eqb k' k); cbn [map snd sum fold_right] in *.
  - reflexivity.
  - fold (sum (map snd (update k S 0 c))). fold (sum (map snd c)).
    rewrite IH. lia.
Qed.

Lemma count_in_update (f fam k k' : str) (tbl : dict counter) :
  count_in f k' (update fam (incr k) [] tbl)
  = count_in f k' tbl + (if str_eqb fam f && str_eqb k k' then 1 else 0).
Proof.
  unfold count_in. rewrite get_update.
  destruct (str_eqb fam f) eqn:E; cbn [andb]; [|lia].
  apply str_eqb_eq in E. subst f. rewrite count_of_incr.
  replace (count_of k' match get fam tbl with Some v => v | None => [] end)
    with (match get fam tbl with Some c => count_of k' c | None => 0 end)
    by (destruct (get fam tbl); reflexivity).
  destruct (str_eqb k k'); lia.
Qed.

Lemma total_in_update (f fam k : str) (tbl : dict counter) :
  total_in f (update fam (incr k) [] tbl)
  = total_in f tbl + (if str_eqb fam f then 1 else 0).
Proof.
  unfold total_in. rewrite get_update.
  destruct (str_eqb fam f) eqn:E; [|lia].
  apply str_eqb_eq in E. subst f. rewrite total_incr.
  destruct (get fam tbl); [lia | reflexivity].
Qed.

(** Over a list without repetition, an indicator sums to one. *)
Lemma sum_indicator (fam : str) (F : list str) (n : nat) :
  NoDup F -> In fam F ->
  sum (map (fun f => if str_eqb fam f then n else 0) F) = n.
Proof.
  induction 1 as [|x F Hx N IH]; simpl; [contradiction|].
  fold (sum (map (fun f => if str_eqb fam f then n else 0) F)).
  intros [-> | H].
  - rewrite str_eqb_refl.
    replace (sum _) with 0; [lia|].
    clear IH N. induction F as [|y F IH]; [reflexivity|]. simpl.
    fold (sum (map (fun f => if str_eqb fam f then n else 0) F)).
    destruct (str_eqb fam y) eqn:E.
    + apply str_eqb_eq in E. subst y. exfalso. apply Hx. left. reflexivity.
    + rewrite <- IH; [reflexivity|]. intros H. apply Hx. right. exact H.
  - destruct (str_eqb fam x) eqn:E.
    + apply str_eqb_eq in E. subst x. contradiction.
    + rewrite IH by assumption. reflexivity.
Qed.

Lemma sum_map_add (A : Type) (g h : A -> nat) (l : list A) :
  sum (map (fun a => g a + h a) l) = sum (map g l) + sum (map h l).
Proof.
  induction l as [|a l IH]; simpl; [reflexivity|].
  fold (sum (map (fun a => g a + h a) l)). fold (sum (map g l)).
  fold (sum (map h l)). rewrite IH. lia.
Qed.

Section WithTable.
Variable T : table.

Lemma count_record_balanced (F : list str) (fam : str) (r : row) (s : series) :
  NoDup F -> In fam F -> balanced F s -> balanced F (count_record T fam r s).
Proof.
  intros N H [Bd Bh]. unfold count_record.
  destruct (strptime T (timestamp r)) as [dt|]; [|split; assumption].
  split; intros k; cbn [daily hourly fam_daily fam_hourly];
    rewrite count_of_incr;
    rewrite (map_ext _ _ (fun f => count_in_update f fam _ k _));
    rewrite sum_map_add.
  - rewrite Bd.
    rewrite (map_ext _ (fun f => if str_eqb fam f
                                 then (if str_eqb (day_key dt) k then 1 else 0)
                                 else 0))
      by (intros f; destruct (str_eqb fam f), (str_eqb (day_key dt) k); reflexivity).
    rewrite sum_indicator by assumption.
    destruct (str_eqb (day_key dt) k); lia.
  - rewrite Bh.
    rewrite (map_ext _ (fun f => if str_eqb fam f
                                 then (if str_eqb (hour_key dt) k then 1 else 0)
                                 else 0))
      by (intros f; destruct (str_eqb fam f), (str_eqb (hour_key dt) k); reflexivity).
    rewrite sum_indicator by assumption.
    destruct (str_eqb (hour_key dt) k); lia.
Qed.

Lemma time_series_fold (families : dict (list row)) :
  time_series T families = count_entries T families (Series [] [] [] []).
Proof. reflexivity. Qed.

Lemma count_items_balanced F fam items :
  NoDup F -> In fam F ->
  forall s, balanced F s -> balanced F (count_items T fam items s).
Proof.
  intros N H. induction items as [|r items IH]; intros s B; [exact B|].
  apply IH, count_record_balanced; assumption.
Qed.

Lemma count_entries_balanced F entries :
  NoDup F -> incl (keys entries) F ->
  forall s, balanced F s -> balanced F (count_entries T entries s).
Proof.
  intros N. induction entries as [|[fam items] entries IH]; intros I s B;
    [exact B|].
  apply IH.
  - intros x Hx. apply I. right. exact Hx.
  - apply count_items_balanced; auto. apply I. left. reflexivity.
Qed.

Lemma count_record_totals fam r s :
  total (daily (count_record T fam r s))
  = total (daily s) + (if dated T r then 1 else 0)
  /\ total (hourly (count_record T fam r s))
     = total (hourly s) + (if dated T r then 1 else 0)
  /\ (forall f, total_in f (fam_daily (count_record T fam r s))
                = total_in f (fam_daily s)
                  + (if str_eqb fam f && dated T r then 1 else 0))
  /\ (forall f, total_in f (fam_hourly (count_record T fam r s))
                = total_in f (fam_hourly s)
                  + (if str_eqb fam f && dated T r then 1 else 0)).
Proof.
  unfold count_record, dated.
  destruct (strptime T (timestamp r)) as [dt|];
    cbn [daily hourly fam_daily fam_hourly].
  - rewrite !total_incr. repeat split; try lia;
      intros f; rewrite total_in_update, andb_true_r; reflexivity.
  - repeat split; try lia; intros f; rewrite andb_false_r; lia.
Qed.

Lemma length_filter_cons (p : row -> bool) (r : row) (l : list row) :
  length (filter p (r :: l)) = (if p r then 1 else 0) + length (filter p l).
Proof. simpl. destruct (p r); reflexivity. Qed.

Lemma dated_in_cons p (e : str * list row) entries :
  dated_in p (e :: entries) = length (filter p (snd e)) + dated_in p entries.
Proof. reflexivity. Qed.

Lemma dated_of_cons f (e : str * list row) entries :
  dated_of T f (e :: entries)
  = (if str_eqb (fst e) f then length (filter (dated T) (snd e)) else 0)
    + dated_of T f entries.
Proof. reflexivity. Qed.

Lemma count_items_totals fam items :
  forall s, totals_after T [(fam, items)] s (count_items T fam items s).
Proof.
  unfold totals_after. induction items as [|r items IH]; intros s.
  - rewrite dated_in_cons. change (dated_in (dated T) []) with 0.
    cbn [count_items fold_left snd filter length].
    split; [lia|]. split; [lia|].
    split; intros f; rewrite dated_of_cons; change (dated_of T f []) with 0;
      cbn [fst snd filter length]; destruct (str_eqb fam f); lia.
  - cbn [count_items fold_left].
    fold (count_items T fam items (count_record T fam r s)).
    destruct (IH (count_record T fam r s)) as (I1 & I2 & I3 & I4).
    destruct (count_record_totals fam r s) as (R1 & R2 & R3 & R4).
    rewrite dated_in_cons in *. cbn [snd] in *.
    rewrite length_filter_cons.
    change (dated_in (dated T) []) with 0 in *.
    repeat split.
    + rewrite I1, R1. lia.
    + rewrite I2, R2. lia.
    + intros f. rewrite I3, R3, !dated_of_cons. cbn [fst snd].
      rewrite length_filter_cons. change (dated_of T f []) with 0.
      destruct (str_eqb fam f), (dated T r); cbn [andb]; lia.
    + intros f. rewrite I4, R4, !dated_of_cons. cbn [fst snd].
      rewrite length_filter_cons. change (dated_of T f []) with 0.
      destruct (str_eqb fam f), (dated T r); cbn [andb]; lia.
Qed.

Lemma count_entries_totals entries :
  forall s, totals_after T entries s (count_entries T entries s).
Proof.
  induction entries as [|[fam items] entries IH]; intros s.
  - unfold totals_after. change (dated_in (dated T) []) with 0.
    cbn [count_entries fold_left].
    split; [lia|]. split; [lia|].
    split; intros f; change (dated_of T f []) with 0; lia.
  - cbn [count_entries fold_left fst snd].
    fold (count_entries T entries (count_items T fam items s)).
    destruct (IH (count_items T fam items s)) as (I1 & I2 & I3 & I4).
    destruct (count_items_totals fam items s) as (R1 & R2 & R3 & R4).
    rewrite dated_in_cons in R1, R2. cbn [snd] in R1, R2.
    change (dated_in (dated T) []) with 0 in *.
    unfold totals_after. rewrite dated_in_cons. cbn [snd].
    repeat split.
    + rewrite I1, R1. lia.
    + rewrite I2, R2. lia.
    + intros f. rewrite I3, R3, !dated_of_cons. cbn [fst snd].
      change (dated_of T f []) with 0. lia.
    + intros f. rewrite I4, R4, !dated_of_cons. cbn [fst snd].
      change (dated_of T f []) with 0. lia.
Qed.

Lemma dated_in_add_row (p : row -> bool) (d : dict (list row)) (r : row) :
  dated_in p (add_row T d r) = dated_in p d + (if p r then 1 else 0).
Proof.
  unfold add_row. induction d as [|[k items] d IH].
  - cbn [update]. rewrite dated_in_cons. cbn [snd app].
    rewrite length_filter_cons. cbn [filter length].
    change (dated_in p []) with 0. destruct (p r); lia.
  - cbn [update]. destruct (str_eqb k (family_of T r)).
    + rewrite !dated_in_cons. cbn [snd].
      rewrite filter_app, length_app, length_filter_cons. cbn [filter length].
      destruct (p r); lia.
    + rewrite !dated_in_cons, IH. cbn [snd]. lia.
Qed.

Lemma dated_in_group (p : row -> bool) (rows : list row) :
  dated_in p (group_families T rows) = length (filter p rows).
Proof.
  rewrite group_families_fold.
  assert (G : forall d, dated_in p (fold_left (add_row T) rows d)
                        = dated_in p d + length (filter p rows)).
  { induction rows as [|r rows IH]; intros d; cbn [fold_left].
    - cbn [filter length]. lia.
    - rewrite IH, dated_in_add_row, length_filter_cons. destruct (p r); lia. }
  rewrite G. reflexivity.
Qed.

Lemma dated_of_add_row (f : str) (d : dict (list row)) (r : row) :
  dated_of T f (add_row T d r)
  = dated_of T f d + (if str_eqb (family_of T r) f && dated T r then 1 else 0).
Proof.
  unfold add_row. induction d as [|[k items] d IH].
  - cbn [update]. rewrite dated_of_cons. cbn [fst snd app].
    rewrite length_filter_cons. change (dated_of T f []) with 0.
    cbn [filter length].
    destruct (str_eqb (family_of T r) f), (dated T r); cbn [andb]; lia.
  - cbn [update]. destruct (str_eqb k (family_of T r)) eqn:E.
    + apply str_eqb_eq in E. subst k. rewrite !dated_of_cons. cbn [fst snd].
      rewrite filter_app, length_app, length_filter_cons. cbn [filter length].
      destruct (str_eqb (family_of T r) f), (dated T r); cbn [andb]; lia.
    + rewrite !dated_of_cons, IH. cbn [fst snd]. lia.
Qed.

Lemma dated_of_group (f : str) (rows : list row) :
  dated_of T f (group_families T rows)
  = length (filter (fun r => str_eqb (family_of T r) f && dated T r) rows).
Proof.
  rewrite group_families_fold.
  assert (G : forall d,
             dated_of T f (fold_left (add_row T) rows d)
             = dated_of T f d
               + length (filter (fun r => str_eqb (family_of T r) f && dated T r)
                                rows)).
  { induction rows as [|r rows IH]; intros d; cbn [fold_left].
    - cbn [filter length]. lia.
    - rewrite IH, dated_of_add_row, length_filter_cons.
      destruct (str_eqb (family_of T r) f && dated T r); lia. }
  rewrite G. reflexivity.
Qed.

End WithTable.
End SeriesFacts.

(** ** LogIngestor *)

Module IngestFacts.
Import Unicode Py PyTime Containers LineParser Ingest Main StrFacts
       ContainerFacts.

Section WithTable.
Variable T : table.

Lemma parse_line_dated fp since_dt until_dt line r :
  parse_line T fp since_dt until_dt line = Some r -> dated T r = true.
Proof.
  unfold parse_line, dated.
  destruct (Regex.re_match T (LOG_LINE_RE T) line) as [m|]; [|discriminate].
  destruct (negb _); [discriminate|].
  destruct (strptime T (Regex.group G_ts m)) as [ts|] eqn:E; [|discriminate].
  destruct (match since_dt with Some _ => _ | None => _ end); [discriminate|].
  destruct (match until_dt with Some _ => _ | None => _ end); [discriminate|].
  intros H. injection H as <-. cbn [timestamp]. rewrite E. reflexivity.
Qed.

Lemma rows_of_lines_app fp since_dt until_dt a b :
  rows_of_lines T fp since_dt until_dt (a ++ b)
  = rows_of_lines T fp since_dt until_dt a
    ++ rows_of_lines T fp since_dt until_dt b.
Proof.
  induction a as [|line a IH]; [reflexivity|]. cbn [app rows_of_lines].
  destruct (parse_line T fp since_dt until_dt line); rewrite IH; reflexivity.
Qed.

Lemma rows_of_lines_dated fp since_dt until_dt lines :
  Forall (fun r => dated T r = true) (rows_of_lines T fp since_dt until_dt lines).
Proof.
  induction lines as [|line lines IH]; [constructor|]. cbn [rows_of_lines].
  destruct (parse_line T fp since_dt until_dt line) as [r|] eqn:E; [|exact IH].
  constructor; [eapply parse_line_dated; exact E | exact IH].
Qed.

Lemma read_files_benign fs since_dt until_dt files :
  Forall (fun fp => benign (fs fp)) files ->
  forall rows opened,
    read_files T fs since_dt until_dt files rows opened
    = (Ok (rows ++ rows_of_files T fs since_dt until_dt files), opened ++ files).
Proof.
  induction 1 as [|fp files Hfp Hfiles IH]; intros rows opened.
  - cbn. rewrite !app_nil_r. reflexivity.
  - cbn [read_files rows_of_files flat_map].
    destruct Hfp as [-> | ->]; rewrite IH, <- !app_assoc; reflexivity.
Qed.

Lemma read_files_dated fs since_dt until_dt files :
  forall rows opened rows' opened',
    read_files T fs since_dt until_dt files rows opened = (Ok rows', opened') ->
    Forall (fun r => dated T r = true) rows ->
    Forall (fun r => dated T r = true) rows'.
Proof.
  induction files as [|fp files IH]; intros rows opened rows' opened' H F.
  - cbn in H. injection H as <- _. exact F.
  - cbn [read_files] in H.
    assert (F' : Forall (fun r => dated T r = true)
                        (rows ++ rows_of_lines T fp since_dt until_dt
                                               (lines_read (fs fp))))
      by (apply Forall_app; split; [exact F | apply rows_of_lines_dated]).
    destruct (ended (fs fp)) as [|[]]; try discriminate H;
      eapply IH; eassumption.
Qed.

Lemma parse_logs_dated fs found since_dt until_dt rows opened :
  parse_logs T fs found since_dt until_dt = (Ok rows, opened) ->
  Forall (fun r => dated T r = true) rows.
Proof.
  unfold parse_logs. destruct (sort str_leb found); [discriminate|].
  intros H. eapply read_files_dated; [exact H | constructor].
Qed.

Lemma filter_all (A : Type) (p : A -> bool) (l : list A) :
  Forall (fun a => p a = true) l -> filter p l = l.
Proof.
  induction 1 as [|a l Ha Hl IH]; [reflexivity|]. simpl. rewrite Ha, IH.
  reflexivity.
Qed.

End WithTable.

(** C8. With no file found, [parse_logs] exits before it opens anything and
    gives no record.  With files found, each of which is read to its end
    or is gone, it returns the records read, in the order of the files
    and of their lines, having opened every file; a file that was gone
    when opened adds none. *)
Theorem C8_no_file_is_fatal_a_vanished_file_is_not
        (T : table) (fs : filesystem) (found : list str)
        (since_dt until_dt : option datetime) :
  (found = [] ->
   parse_logs T fs found since_dt until_dt = (Raise SystemExit, []))
  /\ (found <> [] ->
      (forall fp, In fp found -> benign (fs fp)) ->
      parse_logs T fs found since_dt until_dt
      = (Ok (rows_of_files T fs since_dt until_dt (sort str_leb found)),
         sort str_leb found))
  /\ (forall fp, lines_read (fs fp) = [] ->
                 rows_of_files T fs since_dt until_dt [fp] = []).
Proof.
  split; [intros ->; reflexivity|]. split.
  - intros Hne Hb. unfold parse_logs.
    destruct (sort str_leb found) as [|fp files] eqn:E.
    + apply sort_nil in E. contradiction.
    + rewrite read_files_benign; [reflexivity|].
      apply Forall_forall. intros x Hx. apply Hb.
      eapply Permutation_in; [apply sort_perm|]. rewrite E. exact Hx.
  - intros fp H. unfold rows_of_files. cbn. rewrite H. reflexivity.
Qed.

(** Two files found, of which [b.log] is gone when it is opened. *)
Lemma C8_vanished_file_witness :
  parse_logs ascii_only rotating_fs [py "b.log"; py "a.log"] None None
  = (Ok [Row (py "2024-01-15T10:30:00.123") (py "ERROR")
             (py "Something failed") (py "a.log")],
     [py "a.log"; py "b.log"]).
Proof.
  destruct (C8_no_file_is_fatal_a_vanished_file_is_not
              ascii_only rotating_fs [py "b.log"; py "a.log"] None None)
    as (_ & H & _).
  rewrite H.
  - vm_compute. reflexivity.
  - discriminate.
  - intros fp [<- | [<- | []]]; [right | left]; reflexivity.
Defined.

End IngestFacts.

(** ** LineParser *)

Module LineFacts.
Import Unicode Regex Py PyTime LineParser StrFacts RegexFacts.

Section WithTable.
Variable T : table.

Lemma Matches_Cat_inv r1 r2 c c' :
  Matches T (Cat r1 r2) c c' ->
  exists c1, Matches T r1 c c1 /\ Matches T r2 c1 c'.
Proof. inversion 1; subst. eauto. Qed.

Lemma Matches_Group_inv i r c c' :
  Matches T (Group i r) c c' -> Matches T r c c'.
Proof. inversion 1; subst. assumption. Qed.

(** Takes the first component off a match of a concatenation. *)
Ltac split_cat M c M1 :=
  apply Matches_Cat_inv in M as (c & M1 & M).

(** Whatever [LOG_LINE_RE] matches holds the separator. *)
Lemma log_line_separated (line : str) (m : groups) :
  re_match T (LOG_LINE_RE T) line = Some m -> separated T line.
Proof.
  unfold re_match. destruct (match_at T (LOG_LINE_RE T) (start line))
    as [[c' g]|] eqn:E; [|discriminate].
  intros _. unfold match_at in E. apply run_sound in E as (c'' & g'' & M & _).
  clear c' g g''. unfold LOG_LINE_RE in M. cbn [cat fold_right] in M.
  split_cat M c0 M0. split_cat M c1 M1. split_cat M c2 M2.
  split_cat M c3 M3. split_cat M c4 M4. split_cat M c5 M5.
  split_cat M c6 M6. split_cat M c7 M7. split_cat M c8 M8.
  split_cat M c9 M9. split_cat M c10 M10. clear M.
  pose proof (proj1 (Matches_subject M0)) as S0.
  pose proof (proj1 (Matches_subject M1)) as S1.
  pose proof (proj1 (Matches_subject M2)) as S2.
  pose proof (proj1 (Matches_subject M3)) as S3.
  pose proof (proj1 (Matches_subject M4)) as S4.
  pose proof (proj1 (Matches_subject M5)) as S5.
  pose proof (proj1 (Matches_subject M6)) as S6.
  pose proof (proj1 (Matches_subject M7)) as S7.
  pose proof (proj1 (Matches_subject M8)) as S8.
  assert (S : subject c8 = line).
  { rewrite S8, S7, S6, S5, S4, S3, S2, S1, S0. reflexivity. }
  apply Matches_plus_cls_inv in M8 as (xs & Hxs & Fxs & _ & Hb).
  apply Matches_cls_inv in M9 as (d & Hd & Hd1 & _).
  apply char_eqb_eq in Hd. subst d.
  apply Matches_plus_cls_inv in M10 as (ys & Hys & Fys & Ha & _).
  destruct ys as [|b ys]; [congruence|].
  apply Forall_inv in Fys.
  destruct xs as [|x xs _] using rev_ind; [congruence|].
  apply Forall_app in Fxs as [_ Fx]. apply Forall_inv in Fx.
  rewrite rev_app_distr in Hb. cbn [rev app] in Hb.
  exists (rev (rev xs ++ behind c7)), x, b, (ys ++ ahead c10).
  split; [|split; assumption].
  rewrite <- S. unfold subject. rewrite Hb, Hd1, Ha. cbn [rev app].
  rewrite <- app_assoc. reflexivity.
Qed.

End WithTable.

(** C6, as amended.  The example line gives a record with level [ERROR]
    and the message; a line of the shape whose level, in upper case, is
    neither [ERROR] nor [WARN] is dropped; and so is every line in which
    no hyphen has white space on both sides. *)
Theorem C6_line_parsing
        (T : table) (fp : str) (since_dt until_dt : option datetime) :
  parse_line T fp None None (line_with_level "ERROR")
  = Some (Row (py "2024-01-15T10:30:00.123") (py "ERROR")
              (py "Something failed") (basename fp))
  /\ (forall line m,
         re_match T (LOG_LINE_RE T) line = Some m ->
         existsb (str_eqb (upper T (group G_level m))) [py "ERROR"; py "WARN"]
         = false ->
         parse_line T fp since_dt until_dt line = None)
  /\ parse_line T fp since_dt until_dt (line_with_level "INFO") = None
  /\ parse_line T fp since_dt until_dt (line_with_level "DEBUG") = None
  /\ (forall line, ~ separated T line ->
                   parse_line T fp since_dt until_dt line = None)
  /\ parse_line T fp since_dt until_dt line_without_separator = None.
Proof.
  split; [vm_compute; reflexivity|].
  split; [intros line m Hm Hl; unfold parse_line; rewrite Hm, Hl; reflexivity|].
  split; [vm_compute; reflexivity|].
  split; [vm_compute; reflexivity|].
  split; [|vm_compute; reflexivity].
  intros line H. unfold parse_line.
  destruct (re_match T (LOG_LINE_RE T) line) as [m|] eqn:E; [|reflexivity].
  exfalso. apply H. eapply log_line_separated. exact E.
Qed.

(** C6, as stated, fails: the pattern asks for white space around the
    hyphen, not for blanks, so a line with tabs there, which does not hold
    the text [" - "], gives a record all the same. *)
Lemma C6_tabs_around_the_hyphen :
  contains (py " - ") line_with_tabs = false
  /\ parse_line ascii_only (py "app.log") None None line_with_tabs
     = Some (Row (py "2024-01-15T10:30:00.123") (py "ERROR")
                 (py "Something failed") (py "app.log")).
Proof. split; vm_compute; reflexivity. Qed.

End LineFacts.

(** ** The pipeline *)

Module PipelineFacts.
Import Unicode Regex Py PyTime RelTime Containers LineParser Ingest Main
       StrFacts RelTimeFacts CalendarFacts ContainerFacts SummaryFacts
       SeriesFacts IngestFacts.

(** C7. A line of the expected shape whose time stamp [strptime] refuses
    is dropped: it gives no record, the lines after it are read as if it
    were not there, and the reading of its file ends well. *)
Theorem C7_unreadable_time_stamp_drops_the_line
        (T : table) (fp : str) (since_dt until_dt : option datetime)
        (line : str) (m : groups) (e : exn) :
  re_match T (LOG_LINE_RE T) line = Some m ->
  strptime T (group G_ts m) = Raise e ->
  parse_line T fp since_dt until_dt line = None
  /\ (forall before after,
         rows_of_lines T fp since_dt until_dt (before ++ line :: after)
         = rows_of_lines T fp since_dt until_dt (before ++ after))
  /\ (forall (fs : filesystem) before after rows opened,
         fs fp = Reading (before ++ line :: after) Eof ->
         read_files T fs since_dt until_dt [fp] rows opened
         = (Ok (rows ++ rows_of_lines T fp since_dt until_dt (before ++ after)),
            opened ++ [fp])).
Proof.
  intros Hm Hts.
  assert (P : parse_line T fp since_dt until_dt line = None).
  { unfold parse_line. rewrite Hm, Hts. destruct (negb _); reflexivity. }
  assert (R : forall before after,
             rows_of_lines T fp since_dt until_dt (before ++ line :: after)
             = rows_of_lines T fp since_dt until_dt (before ++ after)).
  { intros before after. rewrite !rows_of_lines_app. cbn [rows_of_lines].
    rewrite P. reflexivity. }
  split; [exact P|]. split; [exact R|].
  intros fs before after rows opened Hfs. cbn [read_files].
  rewrite Hfs. cbn [lines_read ended]. rewrite R. reflexivity.
Qed.

Lemma C7_month_13_witness :
  parse_line ascii_only (py "app.log") None None
             (sample_line "2024-13-15T10:30:00.123") = None
  /\ read_files ascii_only sample_fs None None [py "app.log"] [] []
     = (Ok (rows_of_lines ascii_only (py "app.log") None None
              [sample_line "2024-01-15T10:30:00.123";
               sample_line "2024-01-15T10:31:00.000"]),
        [py "app.log"]).
Proof.
  destruct (@C7_unreadable_time_stamp_drops_the_line
              ascii_only (py "app.log") None None
              (sample_line "2024-13-15T10:30:00.123")
              [(G_msg, py "Something failed"); (G_level, py "ERROR");
               (G_ts, py "2024-13-15T10:30:00.123")]
              ValueError) as (H1 & _ & H3).
  - vm_compute. reflexivity.
  - vm_compute. reflexivity.
  - split; [exact H1|].
    apply (H3 sample_fs [sample_line "2024-01-15T10:30:00.123"]
              [sample_line "2024-01-15T10:31:00.000"] [] []).
    reflexivity.
Defined.

(** The two time stamps that the claim gives as examples. *)
Lemma C7_examples (T : table) :
  (exists m, re_match T (LOG_LINE_RE T) (sample_line "2024-13-15T10:30:00.123") = Some m
             /\ strptime T (group G_ts m) = Raise ValueError)
  /\ (exists m, re_match T (LOG_LINE_RE T) (sample_line "2024-01-15T99:30:00.123") = Some m
                /\ strptime T (group G_ts m) = Raise ValueError).
Proof. split; eexists; split; vm_compute; reflexivity. Qed.

Section WithTable.
Variable T : table.

(** How [main] comes to its window: [until] lies a duration that is not
    negative after [now], and [since], when given, one before it. *)
Lemma resolve_window_ok (now : datetime) (since : option str) (until : str)
      (since_dt : option datetime) (until_dt : datetime) :
  resolve_window T now since until = Ok (since_dt, until_dt) ->
  (exists d2, (0 <= d2)%Z /\ datetime_add now d2 = Ok until_dt)
  /\ (forall s, since_dt = Some s ->
                exists d1, (0 <= d1)%Z /\ datetime_sub now d1 = Ok s).
Proof.
  unfold resolve_window.
  destruct (parse_relative_delta T (Some until)) as [[du|]|] eqn:Pu;
    cbn [Py.bind]; try discriminate;
    [|exfalso; exact (@parse_relative_delta_some T _ Pu)].
  apply parse_relative_delta_nonneg in Pu.
  destruct (datetime_add now du) as [u|] eqn:Au; cbn [Py.bind];
    [|discriminate].
  assert (U : forall sd, Ok (sd, u) = Ok (since_dt, until_dt) ->
              exists d2, (0 <= d2)%Z /\ datetime_add now d2 = Ok until_dt).
  { intros sd H. injection H as _ <-. exists du. split; [lia | exact Au]. }
  destruct since as [[|c since]|]; cbn [Py.bind].
  - intros H. split; [exact (U _ H)|].
    injection H as <- _. intros s E. discriminate E.
  - match goal with |- context [parse_relative_delta T ?a] =>
      destruct (parse_relative_delta T a) as [[ds|]|] eqn:Ps
    end; cbn [Py.bind]; try discriminate.
    apply parse_relative_delta_nonneg in Ps.
    destruct (datetime_sub now ds) as [s|] eqn:As; cbn [Py.bind];
      [|discriminate].
    intros H. split; [exact (U _ H)|].
    injection H as <- _. intros s' E. injection E as <-.
    exists ds. split; [lia | exact As].
  - intros H. split; [exact (U _ H)|].
    injection H as <- _. intros s E. discriminate E.
Qed.

Lemma datetime_add_raises (t : datetime) (d : timedelta) (x : exn) :
  datetime_add t d = Raise x -> x = OverflowError.
Proof.
  unfold datetime_add. cbv zeta. destruct (_ && _).
  - destruct (ord2ymd _) as [[? ?] ?]. discriminate.
  - intros H. injection H as <-. reflexivity.
Qed.

(** [main] fails to come to a window only with an invalid expression or
    with a duration or an instant out of range. *)
Lemma resolve_window_raises (now : datetime) (since : option str)
      (until : str) (x : exn) :
  resolve_window T now since until = Raise x ->
  x = ValueError \/ x = OverflowError.
Proof.
  unfold resolve_window.
  destruct (parse_relative_delta T (Some until)) as [[du|]|e1] eqn:Pu;
    cbn [Py.bind].
  - destruct (datetime_add now du) as [u|e2] eqn:Au; cbn [Py.bind].
    + destruct since as [[|c since]|]; cbn [Py.bind]; try discriminate.
      match goal with |- context [parse_relative_delta T ?a] =>
        destruct (parse_relative_delta T a) as [[ds|]|e3] eqn:Ps
      end; cbn [Py.bind].
      * destruct (datetime_sub now ds) as [s|e4] eqn:As; cbn [Py.bind];
          [discriminate|].
        intros H. injection H as <-. right.
        exact (@datetime_add_raises _ _ _ As).
      * exfalso. exact (@parse_relative_delta_some T _ Ps).
      * intros H. injection H as <-.
        exact (@parse_relative_delta_raises T _ _ Ps).
    + intros H. injection H as <-. right. exact (@datetime_add_raises _ _ _ Au).
  - exfalso. exact (@parse_relative_delta_some T _ Pu).
  - intros H. injection H as <-. exact (@parse_relative_delta_raises T _ _ Pu).
Qed.

End WithTable.

(** C5, as amended.  A window that [main] resolves from its expressions
    is never inverted: [until] is not before [now], and [since], when
    given, is not after [now], hence not after [until].  So the guard of
    lines 634-635 lets every resolved window pass, and [main] goes on to
    [parse_logs] with it.  [main] stops before the ingestion, with no file
    opened, when it cannot resolve the window: with the [ValueError] of an
    invalid expression, or the [OverflowError] of a duration or an instant
    out of range.  The guard itself, given a [since] after [until], would
    exit with nothing opened. *)
Theorem C5_window_is_never_inverted
        (T : table) (fs : filesystem) (found : list str)
        (now : datetime) (since : option str) (until : str) :
  valid now ->
  (forall since_dt until_dt,
      resolve_window T now since until = Ok (since_dt, until_dt) ->
      datetime_ltb until_dt now = false
      /\ (forall s, since_dt = Some s ->
                    datetime_ltb now s = false
                    /\ datetime_gtb s until_dt = false)
      /\ main_rows T fs found now since until
         = parse_logs T fs found since_dt (Some until_dt))
  /\ (forall x,
         resolve_window T now since until = Raise x ->
         (x = ValueError \/ x = OverflowError)
         /\ main_rows T fs found now since until = (Raise x, []))
  /\ (forall s u,
         datetime_gtb s u = true ->
         analyse T fs found (Some s) u = (Raise SystemExit, [])).
Proof.
  intros V. split; [|split].
  - intros since_dt until_dt R.
    destruct (@resolve_window_ok T _ _ _ _ _ R) as ((d2 & H2 & A2) & S).
    assert (G : forall s, since_dt = Some s ->
                datetime_ltb now s = false /\ datetime_gtb s until_dt = false).
    { intros s E. destruct (S s E) as (d1 & H1 & A1). split.
      - exact (proj2 (@datetime_sub_earlier _ _ _ V H1 A1)).
      - exact (@back_not_after_forth _ _ _ _ _ V H1 H2 A1 A2). }
    split; [exact (proj2 (@datetime_add_later _ _ _ V H2 A2))|].
    split; [exact G|].
    unfold main_rows. rewrite R. unfold analyse.
    destruct since_dt as [s|]; [|reflexivity].
    rewrite (proj2 (G s eq_refl)). reflexivity.
  - intros x R. split; [exact (@resolve_window_raises T _ _ _ _ R)|].
    unfold main_rows. rewrite R. reflexivity.
  - intros s u G. unfold analyse. rewrite G. reflexivity.
Qed.

(** A run over the last 24 hours. *)
Lemma C5_window_witness :
  main_rows ascii_only sample_fs [py "app.log"]
            (Datetime 2024 1 16 0 0 0 0) (Some (py "24h")) (py "0h")
  = parse_logs ascii_only sample_fs [py "app.log"]
               (Some (Datetime 2024 1 15 0 0 0 0))
               (Some (Datetime 2024 1 16 0 0 0 0))
  /\ datetime_gtb (Datetime 2024 1 15 0 0 0 0) (Datetime 2024 1 16 0 0 0 0)
     = false.
Proof.
  destruct (@C5_window_is_never_inverted
              ascii_only sample_fs [py "app.log"]
              (Datetime 2024 1 16 0 0 0 0) (Some (py "24h")) (py "0h"))
    as (H & _ & _); [reflexivity|].
  destruct (H (Some (Datetime 2024 1 15 0 0 0 0)) (Datetime 2024 1 16 0 0 0 0))
    as (_ & H2 & H3); [vm_compute; reflexivity|].
  split; [exact H3 | exact (proj2 (H2 _ eq_refl))].
Defined.

(** C5, as stated, fails: both expressions resolve to durations, no
    [since] later than [until] comes of them, and yet the ingestion does
    not proceed.  Three million days before [now] is no date of the
    calendar, so the subtraction of line 633 raises [OverflowError] and
    [main] ends there, with no file opened. *)
Lemma C5_instant_out_of_range :
  parse_relative_delta ascii_only (Some (py "3000000d"))
  = Ok (Some (3000000 * US_PER_DAY)%Z)
  /\ parse_relative_delta ascii_only (Some (py "0h")) = Ok (Some td_zero)
  /\ datetime_sub (Datetime 2024 1 15 10 30 0 0) (3000000 * US_PER_DAY)%Z
     = Raise OverflowError
  /\ main_rows ascii_only sample_fs [py "app.log"]
               (Datetime 2024 1 15 10 30 0 0) (Some (py "3000000d")) (py "0h")
     = (Raise OverflowError, []).
Proof. vm_compute. repeat split; reflexivity. Qed.

Section WithTable.
Variable T : table.

Lemma sum_zero (A : Type) (l : list A) : sum (map (fun _ => 0) l) = 0.
Proof. induction l as [|a l IH]; [reflexivity | exact IH]. Qed.

Lemma summary_families_perm (rows : list row) :
  Permutation (map family (summary_of (group_families T rows)))
              (keys (group_families T rows)).
Proof.
  rewrite summary_of_sort, keys_group_families, <- unsorted_families.
  apply Permutation_map, sort_perm.
Qed.

Lemma summary_counts_sum (rows : list row) :
  sum (map count (summary_of (group_families T rows))) = length rows.
Proof.
  rewrite summary_of_sort.
  rewrite (sum_perm (Permutation_map count (sort_perm by_count _))).
  unfold unsorted_summary. rewrite map_map. cbn [count].
  transitivity (dated_in (fun _ => true) (group_families T rows)).
  - unfold dated_in. f_equal. apply map_ext. intros e.
    rewrite filter_true. reflexivity.
  - rewrite dated_in_group, filter_true. reflexivity.
Qed.

Lemma time_series_balanced (rows : list row) :
  balanced (keys (group_families T rows))
           (time_series T (group_families T rows)).
Proof.
  rewrite time_series_fold. apply count_entries_balanced.
  - rewrite keys_group_families. apply first_seen_NoDup.
  - apply incl_refl.
  - split; intros k; cbn [fam_daily fam_hourly daily hourly];
      apply sum_zero.
Qed.

Lemma summary_count_in (rows : list row) (g : str -> nat) :
  sum (map (fun s => g (family s)) (summary_of (group_families T rows)))
  = sum (map g (keys (group_families T rows))).
Proof.
  rewrite <- (map_map family g). apply sum_perm, Permutation_map.
  apply summary_families_perm.
Qed.

Lemma summary_entry_count (rows : list row) (s : summary_row) :
  In s (summary_of (group_families T rows)) ->
  count s = count_family T (family s) rows.
Proof.
  rewrite summary_of_sort. intros H. apply unsorted_counts.
  eapply Permutation_in; [apply sort_perm | exact H].
Qed.

End WithTable.

(** C9. The counts of the summary add up to the number of records.  For
    every day and every hour, the counts of the families add up to the
    overall count of that bucket.  Each record whose time stamp is read
    adds one to the overall daily and hourly series and one to those of
    its family; the records that [parse_logs] returns are all such, so for
    them every series holds as many counts as there are records, and the
    series of a family as many as its entry in the summary. *)
Theorem C9_counts_add_up (T : table) (rows : list row) :
  let families := group_families T rows in
  let summary := summary_of families in
  let ts := time_series T families in
  sum (map count summary) = length rows
  /\ (forall d, sum (map (fun s => count_in (family s) d (fam_daily ts)) summary)
                = count_of d (daily ts))
  /\ (forall h, sum (map (fun s => count_in (family s) h (fam_hourly ts)) summary)
                = count_of h (hourly ts))
  /\ total (daily ts) = length (filter (dated T) rows)
  /\ total (hourly ts) = length (filter (dated T) rows)
  /\ (forall f, total_in f (fam_daily ts)
                = length (filter (fun r => str_eqb (family_of T r) f && dated T r)
                                 rows))
  /\ (forall f, total_in f (fam_hourly ts)
                = length (filter (fun r => str_eqb (family_of T r) f && dated T r)
                                 rows))
  /\ (forall fs found since_dt until_dt opened,
         parse_logs T fs found since_dt until_dt = (Ok rows, opened) ->
         total (daily ts) = length rows
         /\ total (hourly ts) = length rows
         /\ (forall s, In s summary ->
                       total_in (family s) (fam_daily ts) = count s
                       /\ total_in (family s) (fam_hourly ts) = count s)).
Proof.
  intros families summary ts.
  destruct (time_series_balanced T rows) as [Bd Bh].
  destruct (count_entries_totals T families (Series [] [] [] []))
    as (T1 & T2 & T3 & T4).
  rewrite <- time_series_fold in T1, T2, T3, T4. fold ts in T1, T2, T3, T4.
  unfold families in T1, T2, T3, T4.
  rewrite dated_in_group in T1, T2.
  cbn [daily hourly fam_daily fam_hourly] in T1, T2, T3, T4.
  change (total []) with 0 in T1, T2.
  assert (F3 : forall f, total_in f (fam_daily ts)
                         = length (filter (fun r => str_eqb (family_of T r) f
                                                    && dated T r) rows)).
  { intros f. rewrite T3, dated_of_group. reflexivity. }
  assert (F4 : forall f, total_in f (fam_hourly ts)
                         = length (filter (fun r => str_eqb (family_of T r) f
                                                    && dated T r) rows)).
  { intros f. rewrite T4, dated_of_group. reflexivity. }
  split; [apply summary_counts_sum|].
  split; [intros d; unfold summary, families;
          rewrite (summary_count_in T rows (fun f => count_in f d (fam_daily ts)));
          apply Bd|].
  split; [intros h; unfold summary, families;
          rewrite (summary_count_in T rows (fun f => count_in f h (fam_hourly ts)));
          apply Bh|].
  split; [exact T1|]. split; [exact T2|]. split; [exact F3|]. split; [exact F4|].
  intros fs found since_dt until_dt opened H.
  apply parse_logs_dated in H.
  rewrite T1, T2, (filter_all _ H).
  split; [reflexivity|]. split; [reflexivity|].
  intros s Hs. rewrite F3, F4, (summary_entry_count T rows s Hs).
  unfold count_family.
  assert (E : filter (fun r => str_eqb (family_of T r) (family s) && dated T r) rows
              = filter (fun r => str_eqb (family_of T r) (family s)) rows).
  { apply filter_ext_in. intros r Hr. rewrite Forall_forall in H.
    rewrite (H r Hr), andb_true_r. reflexivity. }
  rewrite E. split; reflexivity.
Qed.

End PipelineFacts.

